(** * RAG-Powered Financial Research Assistant: retrieval pipeline

    A shallow embedding of the pipeline of the repository: the chunker and
    corpus builder of [src/ingest.py], the conversation memory of
    [src/memory.py], the retriever of [src/retriever.py] and the answer
    assembly and query entry points of [src/app.py] and [src/chatbot.py].

    Conventions of the embedding.
    - A Python [str] is a [string]; a character is a code point below 256,
      and the [str] methods used by the code ([strip], [lower], [split],
      [in], slicing) are written out for these code points.
    - A Python [int] is a [Z].
    - A dict with a fixed set of keys is a record; the [sessions] dict of the
      conversation memory is a [gmap string SessionState].
    - A call either returns, raises, or (for the one [while] loop of the
      code) runs out of the fuel it was given: see [res]. *)

From Stdlib Require Import ZArith Ascii String.
From stdpp Require Import base tactics option list gmap strings pretty sorting.

Local Open Scope Z_scope.

(** ** Outcomes of calls *)

Inductive exn : Type :=
  | IndexError
  | RuntimeError (msg : string)
  | HTTPException (status_code : Z) (detail : string).

Inductive res (A : Type) : Type :=
  | Returned (a : A)
  | Raised (e : exn)
  | OutOfFuel.

Arguments Returned {A} a.
Arguments Raised {A} e.
Arguments OutOfFuel {A}.

(** [res] is an error monad; stdpp's [x ← r; k] is its bind. *)
Global Instance res_ret : MRet res := λ A a, Returned a.

Global Instance res_bind : MBind res := λ A B k r,
  match r with
  | Returned a => k a
  | Raised e => Raised e
  | OutOfFuel => OutOfFuel
  end.

Global Instance res_fmap : FMap res := λ A B f r,
  x ← r; mret (f x).

(** ** Python strings *)

Module Py.

(** [str.isspace] on one code point below 256. *)
Definition is_space (c : ascii) : bool :=
  match c with
  | "009" | "010" | "011" | "012" | "013"
  | "028" | "029" | "030" | "031" | " " | "133" | "160" => true
  | _ => false
  end%char.

(** [str.lower] on one code point below 256: A-Z and the upper case letters
    of the Latin-1 block move up by 32. *)
Definition lower_char (c : ascii) : ascii :=
  let n := N_of_ascii c in
  if ((65 <=? n) && (n <=? 90) ||
      (192 <=? n) && (n <=? 222) && negb (n =? 215))%N
  then ascii_of_N (n + 32) else c.

Definition len (s : string) : Z := Z.of_nat (String.length s).

Fixpoint take (n : nat) (s : string) : string :=
  match n, s with
  | S n', String c s' => String c (take n' s')
  | _, _ => ""
  end.

Fixpoint drop (n : nat) (s : string) : string :=
  match n, s with
  | S n', String _ s' => drop n' s'
  | _, _ => s
  end.

(** A slice bound as Python normalises it: a negative bound counts from the
    end, and the result is clamped to [0, len s]. *)
Definition clamp (n i : Z) : Z :=
  if i <? 0 then Z.max (i + n) 0 else Z.min i n.

(** [s[a:b]] *)
Definition slice (s : string) (a b : Z) : string :=
  let a' := clamp (len s) a in
  let b' := clamp (len s) b in
  take (Z.to_nat (b' - a')) (drop (Z.to_nat a') s).

Fixpoint lower (s : string) : string :=
  match s with
  | "" => ""
  | String c s' => String (lower_char c) (lower s')
  end.

Fixpoint lstrip (s : string) : string :=
  match s with
  | "" => ""
  | String c s' => if is_space c then lstrip s' else s
  end.

Fixpoint rstrip (s : string) : string :=
  match s with
  | "" => ""
  | String c s' =>
      match rstrip s' with
      | "" => if is_space c then "" else String c ""
      | r => String c r
      end
  end.

(** [s.strip()] *)
Definition strip (s : string) : string := rstrip (lstrip s).

(** [s.split()]: the maximal runs of characters that are not whitespace. *)
Fixpoint split (s : string) : list string :=
  match s with
  | "" => []
  | String c s' =>
      if is_space c then split s'
      else match s' with
           | "" => [String c ""]
           | String c' _ =>
               if is_space c' then String c "" :: split s'
               else match split s' with
                    | w :: ws => String c w :: ws
                    | [] => [String c ""]
                    end
           end
  end.

(** [sub in s] *)
Fixpoint contains (sub s : string) : bool :=
  String.prefix sub s ||
  match s with
  | "" => false
  | String _ s' => contains sub s'
  end.

(** [sep.join(l)] *)
Fixpoint join (sep : string) (l : list string) : string :=
  match l with
  | [] => ""
  | [x] => x
  | x :: l' => x +:+ sep +:+ join sep l'
  end.

(** [s.replace(old, new)] for one-character [old] and [new]. *)
Fixpoint replace_char (old new : ascii) (s : string) : string :=
  match s with
  | "" => ""
  | String c s' =>
      String (if Ascii.eqb c old then new else c) (replace_char old new s')
  end.

(** Truthiness of a [str]: [if s:] *)
Definition truthy (s : string) : bool :=
  match s with "" => false | _ => true end.

(** [l[i]] on a list, with Python's negative indices. *)
Definition index {A} (l : list A) (i : Z) : res A :=
  let n := Z.of_nat (length l) in
  let j := if i <? 0 then i + n else i in
  if (0 <=? j) && (j <? n) then
    match l !! Z.to_nat j with
    | Some x => Returned x
    | None => Raised IndexError
    end
  else Raised IndexError.

End Py.

(** ** src/ingest.py *)

(** A page dict of [read_pdf_with_pages]. *)
Module Page.
Record t := { page : Z; text : string }.
End Page.

(** A chunk dict of [build_corpus], which is also an item of the store. *)
Module Chunk.
Record t := { page : Z; chunk_id : string; text : string }.
End Chunk.

(** The [while] loop of [chunk_text]; [fuel] bounds the number of times the
    loop condition is evaluated. *)
Fixpoint chunk_loop (fuel : nat) (text : string) (chunk_size overlap : Z)
    (start : Z) (chunks : list string) : res (list string) :=
  match fuel with
  | O => OutOfFuel
  | S fuel' =>
      let n := Py.len text in
      if start <? n then
        let end_ := Z.min (start + chunk_size) n in
        let chunk := Py.slice text start end_ in
        let chunks := chunks ++ [chunk] in
        if end_ =? n then Returned chunks
        else
          let start := end_ - overlap in
          let start := if start <? 0 then 0 else start in
          chunk_loop fuel' text chunk_size overlap start chunks
      else Returned chunks
  end.

Definition chunk_text (fuel : nat) (text : string) (chunk_size overlap : Z)
    : res (list string) :=
  chunk_loop fuel text chunk_size overlap 0 [].

(** [enumerate(chunks)] with the inner loop body of [build_corpus]. *)
Fixpoint corpus_of_chunks (page : Z) (idx : Z) (chunks : list string)
    : list Chunk.t :=
  match chunks with
  | [] => []
  | ch :: rest =>
      {| Chunk.page := page;
         Chunk.chunk_id := "p" +:+ pretty page +:+ "_c" +:+ pretty idx;
         Chunk.text := Py.strip ch |}
      :: corpus_of_chunks page (idx + 1) rest
  end.

Fixpoint build_corpus_loop (fuel : nat) (pages : list Page.t)
    (chunk_size overlap : Z) (corpus : list Chunk.t) : res (list Chunk.t) :=
  match pages with
  | [] => Returned corpus
  | p :: rest =>
      chunks ← chunk_text fuel (Page.text p) chunk_size overlap;
      build_corpus_loop fuel rest chunk_size overlap
        (corpus ++ corpus_of_chunks (Page.page p) 0 chunks)
  end.

(** [fuel] is the fuel given to each call of [chunk_text]. *)
Definition build_corpus (fuel : nat) (pages : list Page.t)
    (chunk_size overlap : Z) : res (list Chunk.t) :=
  build_corpus_loop fuel pages chunk_size overlap [].

(** ** src/memory.py *)

Record SessionState := {
  last_topic : string;
  last_user_question : string;
  history : list string
}.

(** [SessionState()] with the defaults of the dataclass. *)
Definition SessionState_default : SessionState :=
  {| last_topic := ""; last_user_question := ""; history := [] |}.

Record ConversationMemory := { sessions : gmap string SessionState }.

(** [ConversationMemory()] *)
Definition ConversationMemory_init : ConversationMemory :=
  {| sessions := ∅ |}.

(** [_get] returns the session object held by the dict; the first component
    is the memory after the call, in which a session that was missing has
    been inserted. *)
Definition _get (m : ConversationMemory) (session_id : string)
    : ConversationMemory * SessionState :=
  match sessions m !! session_id with
  | Some s => (m, s)
  | None =>
      ({| sessions := <[session_id := SessionState_default]> (sessions m) |},
       SessionState_default)
  end.

(** [update] mutates the session object that [_get] returned, which is the
    one held by the dict: the new fields are written back under the key. *)
Definition update (m : ConversationMemory) (session_id user_question topic : string)
    : ConversationMemory :=
  let '(m, s) := _get m session_id in
  let s := {| last_topic := last_topic s;
              last_user_question := last_user_question s;
              history := history s ++ [user_question] |} in
  let s := {| last_topic := last_topic s;
              last_user_question := user_question;
              history := history s |} in
  let s := if Py.truthy topic
           then {| last_topic := topic;
                   last_user_question := last_user_question s;
                   history := history s |}
           else s in
  {| sessions := <[session_id := s]> (sessions m) |}.

Definition pronouns : list string :=
  ["it"; "that"; "they"; "this"; "those"; "them"; "there"; "here"].

Definition contextualize (m : ConversationMemory) (session_id user_question : string)
    : ConversationMemory * string :=
  let '(m, s) := _get m session_id in
  let q := Py.strip user_question in
  let tokens := Py.split (Py.lower q) in
  let q :=
    if (Z.of_nat (length tokens) <=? 5)
       || existsb (λ t, bool_decide (t ∈ pronouns)) tokens
    then
      if Py.truthy (last_topic s)
      then q +:+ " (context: " +:+ last_topic s +:+ ")"
      else q
    else q in
  (m, q).

Definition kws : list string :=
  ["budget"; "debt"; "infrastructure"; "tax"; "revenue"; "expenditure";
   "loan"; "deficit"; "grant"; "policy"].

(** The [for k in kws] loop of [infer_topic]: the first keyword found. *)
Fixpoint first_keyword (ks : list string) (ql : string) : option string :=
  match ks with
  | [] => None
  | k :: ks' => if Py.contains k ql then Some k else first_keyword ks' ql
  end.

Definition infer_topic (user_question : string) : string :=
  let ql := Py.lower user_question in
  match first_keyword kws ql with
  | Some k => k
  | None =>
      Py.join " "
        (take 3 (filter (λ w, 3 < Py.len w) (Py.split ql)))
  end.

(** ** The collaborators outside the repository *)

(** A result dict of [Retriever.search]. *)
Module SearchResult.
Record t (Score : Type) := {
  score : Score;
  page : Z;
  chunk_id : string;
  text : string
}.
Arguments score {Score} _.
Arguments page {Score} _.
Arguments chunk_id {Score} _.
Arguments text {Score} _.
End SearchResult.

(** [settings] of [src/config.py], read from the environment. *)
Record Settings := { CHUNK_SIZE : Z; CHUNK_OVERLAP : Z; TOP_K : Z }.

(** What the code uses of numpy, FAISS, sentence-transformers, the LLM
    service and the process environment. *)
Class External := {
  (** a [float] *)
  Score : Type;
  (** a row of [float32] *)
  Vec : Type;
  (** a loaded [SentenceTransformer] *)
  Model : Type;
  (** a [faiss.Index] *)
  Index : Type;
  (** [model.encode([query], convert_to_numpy=True, normalize_embeddings=True)] *)
  model_encode : Model → string → Vec;
  (** [index.search(q_emb, top_k)], as the rows [(scores[0], idxs[0])] that
      the call returns; the index accepts a [top_k] of 1 or more only, and
      what it does on another [top_k] is not part of this function *)
  index_search : Index → Vec → Z → list Score * list Z;
  (** [f"{score:.3f}"] *)
  format_score : Score → string;
  (** [call_llm] of [src/llm.py], which posts to the remote service *)
  call_llm : string → list (SearchResult.t Score) → res string;
  (** the literal that [src/app.py] appends to a truncated snippet; its code
      points are not all below 256 *)
  ellipsis_app : string;
  (** the same for [src/chatbot.py] *)
  ellipsis_cli : string;
  settings : Settings
}.

(** [x or y] on an optional int: [None] and [0] are falsy. *)
Definition or_int (x : option Z) (y : Z) : Z :=
  match x with
  | Some k => if k =? 0 then y else k
  | None => y
  end.

(** The newline character. *)
Definition nl : string := String "010"%char "".

Section Pipeline.
Context `{External}.

(** ** src/retriever.py *)

(** [json.load] of the store file: a dict with the key ["corpus"]. *)
Record Store := { corpus : list Chunk.t }.

Record Retriever := { index : Index; store : Store; model : Model }.

(** The [for i, score in zip(idxs, scores)] loop of [search]. *)
Fixpoint search_loop (corpus : list Chunk.t) (slots : list (Z * Score))
    (results : list (SearchResult.t Score))
    : res (list (SearchResult.t Score)) :=
  match slots with
  | [] => Returned results
  | (i, sc) :: rest =>
      if i =? -1 then search_loop corpus rest results
      else
        item ← Py.index corpus i;
        search_loop corpus rest
          (results ++ [{| SearchResult.score := sc;
                          SearchResult.page := Chunk.page item;
                          SearchResult.chunk_id := Chunk.chunk_id item;
                          SearchResult.text := Chunk.text item |}])
  end.

Definition search (r : Retriever) (query : string) (top_k : option Z)
    : res (list (SearchResult.t Score)) :=
  let top_k := or_int top_k (TOP_K settings) in
  let q_emb := model_encode (model r) query in
  let '(scores, idxs) := index_search (index r) q_emb top_k in
  let corpus := corpus (store r) in
  search_loop corpus (zip idxs scores) [].

(** ** src/app.py *)

Inductive AnswerGenerator := ExtractiveAnswerGenerator | LLMAnswerGenerator.

(** The loop of the extractive strategies over the results; the two front
    ends differ in the length [limit] of a snippet and in the literal
    appended to a truncated one. *)
Fixpoint extractive_lines (limit : Z) (ellipsis : string)
    (results : list (SearchResult.t Score)) (lines : list string)
    : list string :=
  match results with
  | [] => lines
  | r :: rest =>
      let snippet :=
        Py.replace_char "010" " " (Py.strip (SearchResult.text r)) in
      let snippet :=
        if limit <? Py.len snippet
        then Py.slice snippet 0 limit +:+ ellipsis
        else snippet in
      extractive_lines limit ellipsis rest
        (lines ++ ["- (page " +:+ pretty (SearchResult.page r) +:+ ", score "
                   +:+ format_score (SearchResult.score r) +:+ ") "
                   +:+ snippet])
  end.

Definition generate (g : AnswerGenerator) (question : string)
    (results : list (SearchResult.t Score)) : res string :=
  match g with
  | ExtractiveAnswerGenerator =>
      match results with
      | [] => Returned "No relevant information found in the document."
      | _ =>
          let lines := ["Q: " +:+ question; ""; "Top matches:"] in
          Returned (Py.join nl (extractive_lines 300 ellipsis_app results lines))
      end
  | LLMAnswerGenerator => call_llm question results
  end.

(** The module-level state of the application: [memory] and the global
    [retriever], which is [None] until a document has been ingested. *)
Record App := {
  memory : ConversationMemory;
  retriever : option Retriever
}.

Record AskReq := {
  session_id : string;
  question : string;
  top_k : option Z;
  use_llm : bool
}.

Record AskResp := {
  answer : string;
  results : list (SearchResult.t Score)
}.

(** [ask]: the state after the call and its outcome. A call that raises
    keeps the mutations made before the exception. *)
Definition ask (app : App) (req : AskReq) : App * res AskResp :=
  match retriever app with
  | None =>
      (app, Raised (HTTPException 400
         "Index not found. Please upload or ingest a PDF first."))
  | Some r =>
      let '(m, q_ctx) :=
        contextualize (memory app) (session_id req) (question req) in
      match search r q_ctx
              (Some (or_int (top_k req) (TOP_K settings))) with
      | Returned results =>
          let topic := infer_topic (question req) in
          let m := update m (session_id req) (question req) topic in
          let generator :=
            if use_llm req then LLMAnswerGenerator
            else ExtractiveAnswerGenerator in
          ({| memory := m; retriever := retriever app |},
           answer ← generate generator (question req) results;
           mret {| answer := answer; results := results |})
      | Raised e => ({| memory := m; retriever := retriever app |}, Raised e)
      | OutOfFuel => ({| memory := m; retriever := retriever app |}, OutOfFuel)
      end
  end.

(** A sequence of [ask] requests served one after the other. *)
Fixpoint ask_all (app : App) (reqs : list AskReq)
    : App * list (res AskResp) :=
  match reqs with
  | [] => (app, [])
  | req :: rest =>
      let '(app, out) := ask app req in
      let '(app, outs) := ask_all app rest in
      (app, out :: outs)
  end.

(** ** src/chatbot.py *)

Record Chatbot := {
  Chatbot_retriever : Retriever;
  Chatbot_memory : ConversationMemory
}.

(** The source line of a result in the summarised answer. *)
Definition source_line (r : SearchResult.t Score) : string :=
  "- Page " +:+ pretty (SearchResult.page r) +:+ ", score "
  +:+ format_score (SearchResult.score r).

(** [Chatbot.answer]: the chatbot after the call and its outcome. *)
Definition Chatbot_answer (bot : Chatbot) (session_id question : string)
    (top_k : Z) (use_llm : bool) : Chatbot * res string :=
  let '(m, q_ctx) := contextualize (Chatbot_memory bot) session_id question in
  match search (Chatbot_retriever bot) q_ctx (Some top_k) with
  | Returned results =>
      let topic := infer_topic question in
      let m := update m session_id question topic in
      ({| Chatbot_retriever := Chatbot_retriever bot; Chatbot_memory := m |},
       match results with
       | [] => Returned "I couldn't find anything relevant in the document."
       | _ =>
           if use_llm then
             summary ← call_llm question results;
             mret ("Q: " +:+ question +:+ nl +:+ nl +:+ summary +:+ nl +:+ nl
                   +:+ "---" +:+ nl +:+ "Sources:" +:+ nl
                   +:+ Py.join nl (source_line <$> results))
           else
             let lines := ["Q: " +:+ question; ""; "Top matches:"] in
             Returned (Py.join nl (extractive_lines 400 ellipsis_cli results lines))
       end)
  | Raised e =>
      ({| Chatbot_retriever := Chatbot_retriever bot; Chatbot_memory := m |},
       Raised e)
  | OutOfFuel =>
      ({| Chatbot_retriever := Chatbot_retriever bot; Chatbot_memory := m |},
       OutOfFuel)
  end.

End Pipeline.

(** ** More of src/ingest.py *)

(** [s.replace(old, "")] for a one-character [old]. *)
Fixpoint remove_char (old : ascii) (s : string) : string :=
  match s with
  | "" => ""
  | String c s' =>
      if Ascii.eqb c old then remove_char old s'
      else String c (remove_char old s')
  end.

(** [x or ""] on what [page.extract_text()] returns. *)
Definition or_empty (x : option string) : string :=
  match x with
  | Some s => if Py.truthy s then s else ""
  | None => ""
  end.

(** The loop of [read_pdf_with_pages] over [enumerate(reader.pages, start=i)],
    on the texts that [extract_text] returns for the pages. *)
Fixpoint read_pages_loop (i : Z) (extracted : list (option string))
    : list Page.t :=
  match extracted with
  | [] => []
  | t :: rest =>
      let text := or_empty t in
      let text := Py.strip (remove_char "000" text) in
      if Py.truthy text
      then {| Page.page := i; Page.text := text |}
           :: read_pages_loop (i + 1) rest
      else read_pages_loop (i + 1) rest
  end.

(** [read_pdf_with_pages], from the texts that the PDF reader extracts from
    the pages of the file, in page order. *)
Definition read_pdf_with_pages (extracted : list (option string))
    : list Page.t :=
  read_pages_loop 1 extracted.

Section Frontends.
Context `{External}.

(** ** More of src/app.py *)

(** [ask_ui]: the state after the call, and the answer and results given to
    the template. The form field [use_llm] is an optional string. *)
Definition ask_ui (app : App) (question : string) (use_llm : option string)
    : App * res AskResp :=
  match retriever app with
  | None =>
      (app, Raised (HTTPException 400
         "Index not found. Upload a PDF first."))
  | Some r =>
      let '(m, q_ctx) := contextualize (memory app) "ui" question in
      match search r q_ctx (Some (TOP_K settings)) with
      | Returned results =>
          let topic := infer_topic question in
          let m := update m "ui" question topic in
          let generator :=
            if Py.truthy (or_empty use_llm) then LLMAnswerGenerator
            else ExtractiveAnswerGenerator in
          ({| memory := m; retriever := retriever app |},
           answer ← generate generator question results;
           mret {| answer := answer; results := results |})
      | Raised e => ({| memory := m; retriever := retriever app |}, Raised e)
      | OutOfFuel => ({| memory := m; retriever := retriever app |}, OutOfFuel)
      end
  end.

(** ** More of src/chatbot.py *)

(** How a run of [chat_loop] ends: the loop is left (by [break], or by an
    exception of [answer]), or [input] finds no more line to read. *)
Inductive chat_end :=
  | Ended (r : res ())
  | EndOfInput.

Definition exit_commands : list string := ["/exit"; "exit"; "quit"].

(** The [while True] loop of [chat_loop] over the lines typed by the user:
    the bot after the run, the answers printed, and how the run ended. *)
Fixpoint chat_loop_from (bot : Chatbot) (session_id : string) (use_llm : bool)
    (inputs : list string) (printed : list string)
    : Chatbot * list string * chat_end :=
  match inputs with
  | [] => (bot, printed, EndOfInput)
  | line :: rest =>
      let q := Py.strip line in
      if bool_decide (Py.lower q ∈ exit_commands)
      then (bot, printed, Ended (Returned ()))
      else
        match Chatbot_answer bot session_id q 3 use_llm with
        | (bot, Returned a) =>
            chat_loop_from bot session_id use_llm rest (printed ++ [a])
        | (bot, Raised e) => (bot, printed, Ended (Raised e))
        | (bot, OutOfFuel) => (bot, printed, Ended OutOfFuel)
        end
  end.

(** [chat_loop], with the retriever that [Chatbot()] loads from the index
    directory; the memory of the new bot is empty. *)
Definition chat_loop (r : Retriever) (session_id : string) (use_llm : bool)
    (inputs : list string) : Chatbot * list string * chat_end :=
  let bot := {| Chatbot_retriever := r;
                Chatbot_memory := ConversationMemory_init |} in
  chat_loop_from bot session_id use_llm inputs [].

End Frontends.

(** ** Vocabulary of the properties *)

(** The window [text[s:e]] of a chunk, as the pair [(s, e)] of its offsets. *)
Definition span : Type := Z * Z.

(** The loop of [chunk_text] once more, recording the offsets [(start, end)]
    of each window in place of the window itself. *)
Fixpoint span_loop (fuel : nat) (n chunk_size overlap : Z)
    (start : Z) (spans : list span) : res (list span) :=
  match fuel with
  | O => OutOfFuel
  | S fuel' =>
      if start <? n then
        let end_ := Z.min (start + chunk_size) n in
        let spans := spans ++ [(start, end_)] in
        if end_ =? n then Returned spans
        else
          let start := end_ - overlap in
          let start := if start <? 0 then 0 else start in
          span_loop fuel' n chunk_size overlap start spans
      else Returned spans
  end.

Definition chunk_spans (fuel : nat) (text : string) (chunk_size overlap : Z)
    : res (list span) :=
  span_loop fuel (Py.len text) chunk_size overlap 0 [].

Definition window (text : string) (sp : span) : string :=
  Py.slice text sp.1 sp.2.

(** The windows that the walk over a text of length [n] emits from the
    offset [start] on, under a valid pair of parameters. *)
Inductive windows (n chunk_size overlap : Z) : Z → list span → Prop :=
  | windows_done start :
      n ≤ start → windows n chunk_size overlap start []
  | windows_last start :
      start < n → n ≤ start + chunk_size →
      windows n chunk_size overlap start [(start, n)]
  | windows_next start rest :
      start + chunk_size < n →
      windows n chunk_size overlap (start + chunk_size - overlap) rest →
      windows n chunk_size overlap start ((start, start + chunk_size) :: rest).

(** Every span lies inside the text and is not empty. *)
Definition in_bounds (n : Z) (spans : list span) : Prop :=
  ∀ s e, (s, e) ∈ spans → 0 ≤ s ∧ s < e ∧ e ≤ n.

(** The start offsets increase strictly along the sequence. *)
Definition starts_increasing (spans : list span) : Prop :=
  ∀ (i j : nat) s1 e1 s2 e2,
    spans !! i = Some (s1, e1) → spans !! j = Some (s2, e2) →
    (i < j)%nat → s1 < s2.

(** Every span but the last has length [chunk_size]. *)
Definition full_but_last (chunk_size : Z) (spans : list span) : Prop :=
  ∀ (i : nat) s e,
    spans !! i = Some (s, e) → (S i < length spans)%nat → e - s = chunk_size.

(** Two consecutive spans [(s1, e1)] and [(s2, e2)] share exactly the
    offsets [s2 .. e1 - 1], which are [overlap] many. *)
Definition overlap_exactly (overlap : Z) (spans : list span) : Prop :=
  ∀ (i : nat) s1 e1 s2 e2,
    spans !! i = Some (s1, e1) → spans !! S i = Some (s2, e2) →
    s1 ≤ s2 ∧ s2 ≤ e1 ∧ e1 ≤ e2 ∧ e1 - s2 = overlap.

(** The last [overlap] characters of a chunk are the first [overlap]
    characters of the next one. *)
Definition shares_overlap (overlap : Z) (chunks : list string) : Prop :=
  ∀ (i : nat) ch1 ch2,
    chunks !! i = Some ch1 → chunks !! S i = Some ch2 →
    Py.slice ch1 (Py.len ch1 - overlap) (Py.len ch1) = Py.slice ch2 0 overlap.

(** Every offset of the text lies in some span. *)
Definition covers (n : Z) (spans : list span) : Prop :=
  ∀ k, 0 ≤ k < n → ∃ s e, (s, e) ∈ spans ∧ s ≤ k < e.

(** No whitespace at either end. *)
Definition trimmed (s : string) : Prop := Py.strip s = s.

(** The chunk [c] was cut from the page [p]: its text is the trimmed window
    [text[s:e]] of the page, a window that is not empty. *)
Definition cut_from (p : Page.t) (c : Chunk.t) : Prop :=
  Chunk.page c = Page.page p ∧
  ∃ s e, 0 ≤ s ∧ s < e ∧ e ≤ Py.len (Page.text p) ∧
    Py.slice (Page.text p) s e ≠ "" ∧
    Chunk.text c = Py.strip (Py.slice (Page.text p) s e).

(** The state of a session as [_get] would return it: the defaults for a
    session that does not exist yet. *)
Definition session_of (m : ConversationMemory) (session_id : string)
    : SessionState :=
  default SessionState_default (sessions m !! session_id).

(** The condition under which [contextualize] looks at the last topic. *)
Definition ambiguous (tokens : list string) : Prop :=
  (length tokens ≤ 5)%nat ∨ ∃ t, t ∈ tokens ∧ t ∈ pronouns.

(** The number of characters of a string that are not whitespace. *)
Fixpoint count_nonspace (s : string) : nat :=
  match s with
  | "" => 0
  | String c s' => (if Py.is_space c then 0 else 1) + count_nonspace s'
  end.

(** What [update] does to the state of the session it is called on, with the
    topic that the pipeline passes: the topic inferred from the question. *)
Definition record_question (s : SessionState) (q : string) : SessionState :=
  {| last_topic := if Py.truthy (infer_topic q) then infer_topic q
                   else last_topic s;
     last_user_question := q;
     history := history s ++ [q] |}.

(** A stand-in for the collaborators, to run the pipeline on examples: a
    score is an integer, the index over [n] vectors answers a query for [k]
    neighbours with the positions [0 .. min n k - 1] followed by the
    not-found marker in the slots that are left, and the LLM service is not
    configured. *)
Definition stub_external : External := {|
  Score := Z;
  Vec := string;
  Model := unit;
  Index := nat;
  model_encode := λ _ query, query;
  index_search := λ n _ k,
    (replicate (Z.to_nat k) 0,
     (Z.of_nat <$> seq 0 (n `min` Z.to_nat k))
     ++ replicate (Z.to_nat k - n) (-1));
  format_score := pretty;
  call_llm := λ _ _,
    Raised (RuntimeError "Set HYPERBOLIC_API_KEY in your .env file.");
  ellipsis_app := "...";
  ellipsis_cli := "...";
  settings := {| CHUNK_SIZE := 1000; CHUNK_OVERLAP := 200; TOP_K := 3 |}
|}.

(** A retriever over a store of two chunks, for the examples. *)
Definition stub_retriever : @Retriever stub_external :=
  @Build_Retriever stub_external 2%nat
    {| corpus :=
         [{| Chunk.page := 1; Chunk.chunk_id := "p1_c0";
             Chunk.text := "The budget deficit narrowed." |};
          {| Chunk.page := 2; Chunk.chunk_id := "p2_c0";
             Chunk.text := "Public debt is stable." |}] |}
    ().

(** A retriever whose index was built for three chunks and whose store
    holds two: an index and a store that do not belong together. *)
Definition stub_stale_retriever : @Retriever stub_external :=
  @Build_Retriever stub_external 3%nat (store stub_retriever) ().

(** The application after the ingestion of these two chunks, and two
    requests of one session: a question, and a follow-up with a pronoun. *)
Definition stub_app : @App stub_external :=
  @Build_App stub_external ConversationMemory_init (Some stub_retriever).

Definition stub_first : AskReq :=
  {| session_id := "s"; question := "What is the budget?";
     top_k := None; use_llm := false |}.

Definition stub_second : AskReq :=
  {| session_id := "s"; question := "what about it?";
     top_k := Some 1; use_llm := false |}.

Section PipelineSpec.
Context `{External}.

(** The rows that the index returns to [search]. *)
Definition index_rows (r : Retriever) (query : string) (k : Z)
    : list Score * list Z :=
  index_search (index r) (model_encode (model r) query) k.

(** What [search] relies on from the index over a store of [size] chunks,
    asked for [k] neighbours: the two rows have [k] slots, a slot holds the
    not-found marker [-1] or a position of the store, and no position comes
    twice. *)
Definition rows_well_formed (size k : Z) (rows : list Score * list Z) : Prop :=
  length rows.1 = Z.to_nat k ∧
  length rows.2 = Z.to_nat k ∧
  (∀ i, i ∈ rows.2 → i = -1 ∨ 0 ≤ i < size) ∧
  NoDup (filter (λ i, i ≠ -1) rows.2).

(** The result built from the chunk [item] found with the score [sc]. *)
Definition result_of (sc : Score) (item : Chunk.t) : SearchResult.t Score :=
  {| SearchResult.score := sc;
     SearchResult.page := Chunk.page item;
     SearchResult.chunk_id := Chunk.chunk_id item;
     SearchResult.text := Chunk.text item |}.

(** The call was answered: it returned a response. *)
Definition answered (out : res AskResp) : Prop :=
  ∃ resp, out = Returned resp.

(** The questions of the requests made in a session, in order. *)
Definition questions_of (sid : string) (reqs : list AskReq) : list string :=
  question <$> filter (λ req, session_id req = sid) reqs.

End PipelineSpec.

(** The number of windows of the walk over a text of length [n]: one, and
    one more for every step of [chunk_size - overlap] that it takes to get
    from the end of the first window to the end of the text. *)
Definition chunk_count (n chunk_size overlap : Z) : Z :=
  if n <=? 0 then 0
  else 1 + (Z.max 0 (n - chunk_size) + (chunk_size - overlap) - 1)
           `div` (chunk_size - overlap).

(** The chunks without the characters that each one repeats from the chunk
    before it: [ch[overlap:]] for every chunk, appended in order. *)
Fixpoint fresh_parts (overlap : Z) (chunks : list string) : string :=
  match chunks with
  | [] => ""
  | ch :: rest =>
      Py.slice ch overlap (Py.len ch) +:+ fresh_parts overlap rest
  end.

(** The first chunk, followed by what is new in each of the next ones. *)
Definition reassemble (overlap : Z) (chunks : list string) : string :=
  match chunks with
  | [] => ""
  | ch :: rest => ch +:+ fresh_parts overlap rest
  end.

(** The key of a chunk: the number of its page and the index of its window
    in the page. *)
Definition chunk_key : Type := Z * Z.

(** The identifier that [build_corpus] gives to the chunk of a key. *)
Definition id_of_key (key : chunk_key) : string :=
  "p" +:+ pretty key.1 +:+ "_c" +:+ pretty key.2.

(** The keys of the [k] chunks of a page. *)
Definition page_keys (page : Z) (k : nat) : list chunk_key :=
  (λ i, (page, i)) <$> seqZ 0 (Z.of_nat k).

(** Whether the character [c] occurs in the string. *)
Fixpoint has_char (c : ascii) (s : string) : bool :=
  match s with
  | "" => false
  | String c' s' => Ascii.eqb c' c || has_char c s'
  end.

(** The text that [read_pdf_with_pages] keeps of what was extracted from a
    page: without NUL characters, then trimmed. *)
Definition clean_text (t : option string) : string :=
  Py.strip (remove_char "000" (or_empty t)).

Section AnswerSpec.
Context `{External}.

(** The snippet that the extractive strategies show of a result: the text
    trimmed, on one line, and cut after [limit] characters. *)
Definition snippet_of (limit : Z) (ellipsis : string)
    (r : SearchResult.t Score) : string :=
  let snippet :=
    Py.replace_char "010" " " (Py.strip (SearchResult.text r)) in
  if limit <? Py.len snippet
  then Py.slice snippet 0 limit +:+ ellipsis
  else snippet.

(** The line of a result in the extractive answer. *)
Definition result_line (limit : Z) (ellipsis : string)
    (r : SearchResult.t Score) : string :=
  "- (page " +:+ pretty (SearchResult.page r) +:+ ", score "
  +:+ format_score (SearchResult.score r) +:+ ") "
  +:+ snippet_of limit ellipsis r.

End AnswerSpec.

(** The line is an exit command of [chat_loop]. *)
Definition is_exit (line : string) : Prop :=
  Py.lower (Py.strip line) ∈ exit_commands.

Section SessionSpec.
Context `{External}.



End SessionSpec.

(** * Properties *)

(** ** Outcomes *)

Lemma fmap_Returned {A B} (f : A → B) (a : A) :
  f <$> Returned a = Returned (f a).
Proof. reflexivity. Qed.

Lemma bind_Returned {A B} (k : A → res B) (a : A) :
  Returned a ≫= k = k a.
Proof. reflexivity. Qed.

(** ** Strings *)

Lemma length_take n s :
  String.length (Py.take n s) = (n `min` String.length s)%nat.
Proof.
  revert s. induction n as [|n IH]; intros [|c s]; simpl; auto.
Qed.

Lemma length_drop n s :
  String.length (Py.drop n s) = (String.length s - n)%nat.
Proof.
  revert s. induction n as [|n IH]; intros [|c s]; simpl; auto.
Qed.

Lemma take_all n s : (String.length s ≤ n)%nat → Py.take n s = s.
Proof.
  revert s. induction n as [|n IH]; intros [|c s]; simpl; auto; try lia.
  intros Hn. f_equal. apply IH. lia.
Qed.

Lemma len_nonneg s : 0 ≤ Py.len s.
Proof. unfold Py.len. lia. Qed.

Lemma len_empty s : Py.len s = 0 ↔ s = "".
Proof.
  unfold Py.len. destruct s; simpl; split; intros; auto; try lia; discriminate.
Qed.

Lemma clamp_id n i : 0 ≤ i ≤ n → Py.clamp n i = i.
Proof.
  intros Hi. unfold Py.clamp. destruct (Z.ltb_spec i 0); lia.
Qed.

Lemma len_slice s a b :
  0 ≤ a → a ≤ b → b ≤ Py.len s → Py.len (Py.slice s a b) = b - a.
Proof.
  intros Ha Hab Hb. unfold Py.slice.
  rewrite !clamp_id by lia.
  unfold Py.len in *. rewrite length_take, length_drop. lia.
Qed.

Lemma slice_all s : Py.slice s 0 (Py.len s) = s.
Proof.
  unfold Py.slice. pose proof (len_nonneg s).
  rewrite !clamp_id by lia. simpl.
  apply take_all. unfold Py.len. lia.
Qed.

Lemma drop_drop a c s : Py.drop c (Py.drop a s) = Py.drop (a + c) s.
Proof.
  revert s. induction a as [|a IH]; intros s; [done|].
  destruct s as [|x s]; simpl; [by destruct c|]. apply IH.
Qed.

Lemma drop_take c n s : Py.drop c (Py.take n s) = Py.take (n - c) (Py.drop c s).
Proof.
  revert n s. induction c as [|c IH]; intros n s.
  - by rewrite Nat.sub_0_r.
  - destruct n as [|n]; [by destruct s|].
    destruct s as [|x s]; simpl; [by destruct (n - c)%nat|]. apply IH.
Qed.

Lemma take_take m n s : (m ≤ n)%nat → Py.take m (Py.take n s) = Py.take m s.
Proof.
  revert n s. induction m as [|m IH]; intros n s Hmn; [done|].
  destruct n as [|n]; [lia|]. destruct s as [|x s]; simpl; [done|].
  f_equal. apply IH. lia.
Qed.

(** A slice of a slice is a slice. *)
Lemma slice_slice s a b c d :
  0 ≤ a → a ≤ b → b ≤ Py.len s → 0 ≤ c → c ≤ d → d ≤ b - a →
  Py.slice (Py.slice s a b) c d = Py.slice s (a + c) (a + d).
Proof.
  intros Ha Hab Hb Hc Hcd Hd.
  pose proof (len_slice s a b Ha Hab Hb) as Hlen.
  unfold Py.slice at 1. rewrite Hlen, !clamp_id by lia.
  unfold Py.slice. rewrite !clamp_id by lia.
  rewrite drop_take, take_take, drop_drop by lia.
  f_equal; [lia|]. f_equal. lia.
Qed.

(** ** The chunker under a valid pair of parameters *)

Section Chunking.
Variables (n chunk_size overlap : Z).
Hypothesis chunk_size_pos : 0 < chunk_size.
Hypothesis overlap_valid : 0 ≤ overlap < chunk_size.

Lemma windows_starts start ws :
  windows n chunk_size overlap start ws →
  ∀ (i : nat) s e, ws !! i = Some (s, e) →
    start ≤ s ∧ (i = 0%nat → s = start) ∧ (i ≠ 0%nat → start < s).
Proof.
  induction 1 as [start Hge|start Hlt Hend|start rest Hlt Hrest IH];
    intros i s e Hi.
  - by rewrite lookup_nil in Hi.
  - destruct i as [|i]; simpl in Hi; [|by rewrite lookup_nil in Hi].
    inversion Hi; subst. lia.
  - destruct i as [|i]; simpl in Hi.
    + inversion Hi; subst. lia.
    + destruct (IH _ _ _ Hi) as (Hs & _ & _). lia.
Qed.

Lemma windows_in_bounds start ws :
  0 ≤ start → windows n chunk_size overlap start ws → in_bounds n ws.
Proof.
  intros Hstart Hws. revert Hstart.
  induction Hws as [start Hge|start Hlt Hend|start rest Hlt Hrest IH];
    intros Hstart s e Hin.
  - by apply elem_of_nil in Hin.
  - apply list_elem_of_singleton in Hin. inversion Hin; subst. lia.
  - apply elem_of_cons in Hin as [Heq|Hin].
    + inversion Heq; subst. lia.
    + apply (IH ltac:(lia) _ _ Hin).
Qed.

Lemma windows_increasing start ws :
  windows n chunk_size overlap start ws → starts_increasing ws.
Proof.
  induction 1 as [start Hge|start Hlt Hend|start rest Hlt Hrest IH];
    intros i j s1 e1 s2 e2 Hi Hj Hij.
  - by rewrite lookup_nil in Hi.
  - destruct j as [|j]; [lia|]. simpl in Hj. by rewrite lookup_nil in Hj.
  - destruct j as [|j]; [lia|]. simpl in Hj.
    destruct i as [|i]; simpl in Hi.
    + inversion Hi; subst.
      destruct (windows_starts _ _ Hrest _ _ _ Hj) as (Hs & _ & _). lia.
    + apply (IH i j s1 e1 s2 e2 Hi Hj). lia.
Qed.

Lemma windows_full_but_last start ws :
  windows n chunk_size overlap start ws → full_but_last chunk_size ws.
Proof.
  induction 1 as [start Hge|start Hlt Hend|start rest Hlt Hrest IH];
    intros i s e Hi Hlast; simpl in Hlast.
  - lia.
  - destruct i; lia.
  - destruct i as [|i]; simpl in Hi.
    + inversion Hi; subst. lia.
    + apply (IH i s e Hi). lia.
Qed.

Lemma windows_overlap start ws :
  windows n chunk_size overlap start ws → overlap_exactly overlap ws.
Proof.
  induction 1 as [start Hge|start Hlt Hend|start rest Hlt Hrest IH];
    intros i s1 e1 s2 e2 Hi Hj.
  - by rewrite lookup_nil in Hi.
  - simpl in Hj. by rewrite lookup_nil in Hj.
  - simpl in Hj. destruct i as [|i]; simpl in Hi.
    + inversion Hi; subst.
      destruct (windows_starts _ _ Hrest _ _ _ Hj) as (_ & Hs & _).
      specialize (Hs eq_refl). subst s2.
      inversion Hrest; subst; simpl in Hj; inversion Hj; subst; lia.
    + apply (IH i s1 e1 s2 e2 Hi Hj).
Qed.

Lemma windows_covers start ws :
  windows n chunk_size overlap start ws →
  ∀ k, start ≤ k < n → ∃ s e, (s, e) ∈ ws ∧ s ≤ k < e.
Proof.
  induction 1 as [start Hge|start Hlt Hend|start rest Hlt Hrest IH];
    intros k Hk.
  - lia.
  - exists start, n. split; [apply list_elem_of_here|lia].
  - destruct (Z_lt_le_dec k (start + chunk_size)) as [Hin|Hout].
    + exists start, (start + chunk_size). split; [apply list_elem_of_here|lia].
    + destruct (IH k ltac:(lia)) as (s & e & Hse & Hks).
      exists s, e. split; [by apply list_elem_of_further|done].
Qed.

Lemma windows_unique start ws ws' :
  windows n chunk_size overlap start ws →
  windows n chunk_size overlap start ws' → ws = ws'.
Proof.
  intros Hws. revert ws'.
  induction Hws as [start Hge|start Hlt Hend|start rest Hlt Hrest IH];
    intros ws' Hws'; inversion Hws'; subst; try lia; try done.
  f_equal. by apply IH.
Qed.

Lemma windows_nonempty start ws :
  windows n chunk_size overlap start ws → start < n → ws ≠ [].
Proof. destruct 1; intros ?; [lia|done|done]. Qed.

(** The loop terminates, and emits the windows of [windows]. *)
Lemma span_loop_windows fuel start :
  0 ≤ start → (Z.to_nat (n - start) < fuel)%nat →
  ∃ ws, windows n chunk_size overlap start ws ∧
    ∀ acc, span_loop fuel n chunk_size overlap start acc = Returned (acc ++ ws).
Proof.
  revert start. induction fuel as [|fuel IH]; intros start Hstart Hfuel; [lia|].
  simpl. destruct (Z.ltb_spec start n) as [Hlt|Hge].
  - destruct (Z.eqb_spec ((start + chunk_size) `min` n) n) as [Heq|Hne].
    + exists [(start, n)]. split; [apply windows_last; lia|].
      intros acc. by rewrite Heq.
    + assert (Hmin : (start + chunk_size) `min` n = start + chunk_size) by lia.
      rewrite Hmin.
      destruct (Z.ltb_spec (start + chunk_size - overlap) 0) as [Hneg|Hpos]; [lia|].
      destruct (IH (start + chunk_size - overlap)) as (ws & Hws & Hloop);
        [lia|lia|].
      exists ((start, start + chunk_size) :: ws).
      split; [apply windows_next; [lia|done]|].
      intros acc. rewrite Hloop, <- app_assoc. done.
  - exists []. split; [by apply windows_done|].
    intros acc. by rewrite app_nil_r.
Qed.

End Chunking.

(** [chunk_text] and its ghost [chunk_spans] run in lock step: the chunks are
    the windows of the spans. *)
Lemma chunk_loop_span_loop fuel text chunk_size overlap start chunks spans :
  chunks = window text <$> spans →
  chunk_loop fuel text chunk_size overlap start chunks
  = (fmap (M := list) (window text))
      <$> span_loop fuel (Py.len text) chunk_size overlap start spans.
Proof.
  revert start chunks spans.
  induction fuel as [|fuel IH]; intros start chunks spans ->; [done|].
  simpl. destruct (start <? Py.len text); [|done].
  destruct (_ =? _).
  - by rewrite fmap_Returned, fmap_app.
  - apply IH. by rewrite fmap_app.
Qed.

Lemma chunk_text_chunk_spans fuel text chunk_size overlap :
  chunk_text fuel text chunk_size overlap
  = (fmap (M := list) (window text))
      <$> chunk_spans fuel text chunk_size overlap.
Proof. by apply chunk_loop_span_loop. Qed.

(** Under a valid pair of parameters [chunk_text] returns, with any fuel
    above the length of the text, the windows of [windows] from offset 0. *)
Lemma chunk_text_runs text chunk_size overlap :
  0 < chunk_size → 0 ≤ overlap < chunk_size →
  ∃ spans,
    windows (Py.len text) chunk_size overlap 0 spans ∧
    ∀ fuel, (String.length text < fuel)%nat →
      chunk_spans fuel text chunk_size overlap = Returned spans ∧
      chunk_text fuel text chunk_size overlap
      = Returned (window text <$> spans).
Proof.
  intros Hsize Hoverlap.
  destruct (span_loop_windows (Py.len text) chunk_size overlap Hsize Hoverlap
              (S (String.length text)) 0) as (spans & Hws & _);
    [lia|unfold Py.len; lia|].
  exists spans. split; [done|].
  intros fuel Hfuel.
  destruct (span_loop_windows (Py.len text) chunk_size overlap
              Hsize Hoverlap fuel 0) as (ws & Hws' & Hloop);
    [lia|unfold Py.len; lia|].
  assert (ws = spans) as -> by (eapply windows_unique; eauto).
  split.
  - unfold chunk_spans. by rewrite Hloop.
  - rewrite chunk_text_chunk_spans.
    unfold chunk_spans. by rewrite Hloop, fmap_Returned.
Qed.

Lemma len_window text n spans sp :
  in_bounds n spans → n = Py.len text → sp ∈ spans →
  Py.len (window text sp) = sp.2 - sp.1.
Proof.
  intros Hbounds -> Hin. destruct sp as [s e].
  destruct (Hbounds s e Hin) as (? & ? & ?).
  unfold window. simpl. apply len_slice; lia.
Qed.

(** C1. For every text, every [chunk_size > 0] and every [overlap] with
    [0 ≤ overlap < chunk_size], [chunk_text] returns (any fuel above the
    length of the text is enough), and the spans [(start, end)] of the
    chunks it returns, each chunk being [text[start:end]] of length
    [end - start], are such that: the start offsets increase strictly; every
    chunk but the last has length exactly [chunk_size]; two consecutive
    chunks share exactly [overlap] offsets, at which the first one ends
    with the characters that the next one starts with; every offset of the
    text lies in some span; and there is at least one chunk when the text is
    not empty. *)
Theorem chunk_text_coverage (text : string) (chunk_size overlap : Z) :
  0 < chunk_size → 0 ≤ overlap < chunk_size →
  ∃ spans : list span,
    (∀ fuel, (String.length text < fuel)%nat →
       chunk_spans fuel text chunk_size overlap = Returned spans ∧
       chunk_text fuel text chunk_size overlap
       = Returned (window text <$> spans)) ∧
    in_bounds (Py.len text) spans ∧
    (∀ sp, sp ∈ spans → Py.len (window text sp) = sp.2 - sp.1) ∧
    starts_increasing spans ∧
    full_but_last chunk_size spans ∧
    (∀ (i : nat) ch,
       (window text <$> spans) !! i = Some ch →
       (S i < length (window text <$> spans))%nat → Py.len ch = chunk_size) ∧
    overlap_exactly overlap spans ∧
    shares_overlap overlap (window text <$> spans) ∧
    covers (Py.len text) spans ∧
    (text ≠ "" → spans ≠ []).
Proof.
  intros Hsize Hoverlap.
  destruct (chunk_text_runs text chunk_size overlap Hsize Hoverlap)
    as (spans & Hws & Hrun).
  assert (Hbounds : in_bounds (Py.len text) spans)
    by (apply (windows_in_bounds _ _ _ Hsize Hoverlap 0 _ ltac:(lia) Hws)).
  assert (Hfull : full_but_last chunk_size spans)
    by (apply (windows_full_but_last _ _ _ _ _ Hws)).
  exists spans. split_and!.
  - done.
  - done.
  - intros sp Hsp. by eapply len_window.
  - apply (windows_increasing _ _ _ Hoverlap _ _ Hws).
  - done.
  - intros i ch Hi Hlast.
    rewrite list_lookup_fmap in Hi. rewrite length_fmap in Hlast.
    destruct (spans !! i) as [[s e]|] eqn:Hsp; [|done].
    simpl in Hi. inversion Hi; subst.
    rewrite (len_window text _ spans (s, e) Hbounds eq_refl)
      by (eapply list_elem_of_lookup_2; eauto).
    simpl. by apply (Hfull i).
  - apply (windows_overlap _ _ _ Hoverlap _ _ Hws).
  - intros i ch1 ch2 Hi Hj. rewrite list_lookup_fmap in Hi, Hj.
    destruct (spans !! i) as [[s1 e1]|] eqn:Hsp1; [|done].
    destruct (spans !! S i) as [[s2 e2]|] eqn:Hsp2; [|done].
    simpl in Hi, Hj. inversion Hi; inversion Hj; subst.
    destruct (windows_overlap _ _ _ Hoverlap _ _ Hws i s1 e1 s2 e2 Hsp1 Hsp2)
      as (? & ? & ? & ?).
    destruct (Hbounds s1 e1) as (? & ? & ?);
      [eapply list_elem_of_lookup_2; eauto|].
    destruct (Hbounds s2 e2) as (? & ? & ?);
      [eapply list_elem_of_lookup_2; eauto|].
    rewrite (len_window text _ spans (s1, e1) Hbounds eq_refl)
      by (eapply list_elem_of_lookup_2; eauto).
    unfold window. simpl.
    rewrite !slice_slice by lia. f_equal; lia.
  - intros k Hk. apply (windows_covers _ _ _ Hoverlap _ _ Hws k Hk).
  - intros Hne. apply (windows_nonempty _ _ _ _ _ Hws).
    pose proof (len_nonneg text). pose proof (len_empty text).
    destruct (Z.eq_dec (Py.len text) 0); [tauto|lia].
Qed.

Lemma chunk_text_coverage_witness :
  ∃ spans : list span,
    chunk_text 27 "abcdefghijklmnopqrstuvwxyz" 10 2
    = Returned (window "abcdefghijklmnopqrstuvwxyz" <$> spans) ∧
    starts_increasing spans ∧ covers 26 spans.
Proof.
  destruct (chunk_text_coverage "abcdefghijklmnopqrstuvwxyz" 10 2)
    as (spans & Hrun & _ & _ & Hincr & _ & _ & _ & _ & Hcov & _); [lia|lia|].
  exists spans. split; [|split; [exact Hincr|exact Hcov]].
  apply (Hrun 27%nat). simpl. lia.
Defined.

(** The test of [tests/test_chunking.py]. *)
Example test_chunking :
  chunk_text 27 "abcdefghijklmnopqrstuvwxyz" 10 2
  = Returned ["abcdefghij"; "ijklmnopqr"; "qrstuvwxyz"].
Proof. reflexivity. Qed.

(** ** The chunker under an overlap that is not below the chunk size *)

(** With [chunk_size ≤ overlap] the start offset never moves forward: from a
    window that ends before the end of the text, the loop goes on for ever. *)
Lemma chunk_loop_stuck fuel text chunk_size overlap start chunks :
  0 < chunk_size → chunk_size ≤ overlap →
  0 ≤ start → start + chunk_size < Py.len text →
  chunk_loop fuel text chunk_size overlap start chunks = OutOfFuel.
Proof.
  intros Hsize Hoverlap. revert start chunks.
  induction fuel as [|fuel IH]; intros start chunks Hstart Hend; [done|].
  simpl. destruct (Z.ltb_spec start (Py.len text)); [|lia].
  destruct (Z.eqb_spec ((start + chunk_size) `min` Py.len text) (Py.len text));
    [lia|].
  apply IH; destruct (Z.ltb_spec ((start + chunk_size) `min` Py.len text - overlap) 0);
    lia.
Qed.

(** C4. The code does not reject an overlap that is not below the chunk
    size, and it does loop: with [0 < chunk_size ≤ overlap], on every text
    longer than [chunk_size] the start offset never advances past the first
    window, the loop appends a chunk at every turn, and the call does not
    come back, neither with a result nor with an error, whatever the number
    of turns it is given. *)
Theorem chunk_text_diverges (text : string) (chunk_size overlap : Z) :
  0 < chunk_size → chunk_size ≤ overlap → chunk_size < Py.len text →
  ∀ fuel, chunk_text fuel text chunk_size overlap = OutOfFuel.
Proof. intros Hsize Hoverlap Hlong fuel. apply chunk_loop_stuck; lia. Qed.

Lemma chunk_text_diverges_witness :
  chunk_text 1000 "abc" 2 2 = OutOfFuel.
Proof.
  apply (chunk_text_diverges "abc" 2 2); [lia|lia|reflexivity].
Defined.

(** ** Trimming *)

Lemma lstrip_head s :
  Py.lstrip s = "" ∨
  ∃ c r, Py.lstrip s = String c r ∧ Py.is_space c = false.
Proof.
  induction s as [|c s IH]; simpl; [by left|].
  destruct (Py.is_space c) eqn:Hc; [done|].
  right. by exists c, s.
Qed.

Lemma rstrip_head c s :
  Py.is_space c = false → ∃ r, Py.rstrip (String c s) = String c r.
Proof.
  intros Hc. simpl. destruct (Py.rstrip s); rewrite ?Hc; eauto.
Qed.

Lemma rstrip_idem s : Py.rstrip (Py.rstrip s) = Py.rstrip s.
Proof.
  induction s as [|c s IH]; simpl; [done|].
  destruct (Py.rstrip s) as [|c' r] eqn:Hr.
  - destruct (Py.is_space c) eqn:Hc; simpl; [done|]. by rewrite Hc.
  - change (Py.rstrip (String c (String c' r)))
      with (match Py.rstrip (String c' r) with
            | "" => if Py.is_space c then "" else String c ""
            | r' => String c r'
            end).
    by rewrite IH.
Qed.

Lemma strip_head s :
  Py.strip s = "" ∨ ∃ c r, Py.strip s = String c r ∧ Py.is_space c = false.
Proof.
  unfold Py.strip. destruct (lstrip_head s) as [->|(c & r & -> & Hc)].
  - by left.
  - right. destruct (rstrip_head c r Hc) as (r' & ->). eauto.
Qed.

Lemma strip_trimmed s : trimmed (Py.strip s).
Proof.
  unfold trimmed.
  destruct (strip_head s) as [->|(c & r & Hs & Hc)]; [done|].
  unfold Py.strip at 1. rewrite Hs. simpl Py.lstrip. rewrite Hc, <- Hs.
  unfold Py.strip. apply rstrip_idem.
Qed.

(** ** The corpus builder *)

Lemma elem_of_corpus_of_chunks page idx chunks c :
  c ∈ corpus_of_chunks page idx chunks →
  Chunk.page c = page ∧ ∃ ch, ch ∈ chunks ∧ Chunk.text c = Py.strip ch.
Proof.
  revert idx. induction chunks as [|ch chunks IH]; intros idx; simpl.
  - by intros ?%elem_of_nil.
  - intros [->|Hc]%elem_of_cons.
    + split; [done|]. exists ch. split; [apply list_elem_of_here|done].
    + destruct (IH _ Hc) as (Hp & ch' & Hch' & Ht).
      split; [done|]. exists ch'. split; [by apply list_elem_of_further|done].
Qed.

Lemma build_corpus_loop_cut fuel pages chunk_size overlap corpus :
  0 < chunk_size → 0 ≤ overlap < chunk_size →
  (∀ p, p ∈ pages → (String.length (Page.text p) < fuel)%nat) →
  ∃ new,
    build_corpus_loop fuel pages chunk_size overlap corpus
    = Returned (corpus ++ new) ∧
    ∀ c, c ∈ new → ∃ p, p ∈ pages ∧ cut_from p c.
Proof.
  intros Hsize Hoverlap. revert corpus.
  induction pages as [|p pages IH]; intros corpus Hfuel; simpl.
  - exists []. split; [by rewrite app_nil_r|]. by intros c ?%elem_of_nil.
  - destruct (chunk_text_runs (Page.text p) chunk_size overlap Hsize Hoverlap)
      as (spans & Hws & Hrun).
    assert (Hbounds : in_bounds (Py.len (Page.text p)) spans)
      by (apply (windows_in_bounds _ _ _ Hsize Hoverlap 0 _ ltac:(lia) Hws)).
    destruct (Hrun fuel) as [_ ->]; [apply Hfuel, list_elem_of_here|].
    rewrite bind_Returned.
    destruct (IH (corpus ++ corpus_of_chunks (Page.page p) 0
                               (window (Page.text p) <$> spans)))
      as (new & -> & Hnew).
    { intros p' Hp'. by apply Hfuel, list_elem_of_further. }
    exists (corpus_of_chunks (Page.page p) 0 (window (Page.text p) <$> spans)
            ++ new).
    split; [by rewrite app_assoc|].
    intros c [Hc|Hc]%elem_of_app.
    + exists p. split; [apply list_elem_of_here|].
      apply elem_of_corpus_of_chunks in Hc as (Hpage & ch & Hch & Htext).
      apply list_elem_of_fmap in Hch as ([s e] & -> & Hsp).
      split; [done|]. exists s, e.
      destruct (Hbounds s e Hsp) as (? & ? & ?).
      split_and!; try done.
      intros Hempty.
      pose proof (len_window (Page.text p) _ spans (s, e) Hbounds eq_refl Hsp)
        as Hlen.
      unfold window in Hlen. simpl in Hlen. rewrite Hempty in Hlen.
      unfold Py.len in Hlen. simpl in Hlen. lia.
    + destruct (Hnew c Hc) as (p' & Hp' & Hcut).
      exists p'. split; [by apply list_elem_of_further|done].
Qed.

(** C6, as the code has it. Under a valid pair of parameters [build_corpus]
    returns (with fuel above the length of every page text), and the text
    of every chunk it returns is a window of its page that is not empty,
    stored trimmed: it has no whitespace at either end. *)
Theorem build_corpus_trimmed (fuel : nat) (pages : list Page.t)
    (chunk_size overlap : Z) :
  0 < chunk_size → 0 ≤ overlap < chunk_size →
  (∀ p, p ∈ pages → (String.length (Page.text p) < fuel)%nat) →
  ∃ corpus,
    build_corpus fuel pages chunk_size overlap = Returned corpus ∧
    ∀ c, c ∈ corpus →
      trimmed (Chunk.text c) ∧ ∃ p, p ∈ pages ∧ cut_from p c.
Proof.
  intros Hsize Hoverlap Hfuel.
  destruct (build_corpus_loop_cut fuel pages chunk_size overlap []
              Hsize Hoverlap Hfuel) as (corpus & Hrun & Hcut).
  exists corpus. split; [done|].
  intros c Hc. destruct (Hcut c Hc) as (p & Hp & Hpc).
  split; [|by exists p].
  destruct Hpc as (_ & s & e & _ & _ & _ & _ & ->). apply strip_trimmed.
Qed.

Lemma build_corpus_trimmed_witness :
  ∃ corpus,
    build_corpus 7 [{| Page.page := 1; Page.text := "a    b" |}] 2 0
    = Returned corpus ∧
    ∀ c, c ∈ corpus → trimmed (Chunk.text c).
Proof.
  destruct (build_corpus_trimmed 7
              [{| Page.page := 1; Page.text := "a    b" |}] 2 0)
    as (corpus & Hrun & Hall); [lia|lia| |].
  - intros p ->%list_elem_of_singleton. simpl. lia.
  - exists corpus. split; [exact Hrun|].
    intros c Hc. exact (proj1 (Hall c Hc)).
Defined.

(** C6 as stated fails: the page text ["a    b"] is not empty, and with
    [chunk_size = 2] and [overlap = 0] its second window is two spaces, whose
    chunk has a text that is empty, before and after trimming. *)
Lemma build_corpus_empty_chunk :
  ∃ corpus c,
    build_corpus 7 [{| Page.page := 1; Page.text := "a    b" |}] 2 0
    = Returned corpus ∧
    c ∈ corpus ∧ Chunk.chunk_id c = "p1_c1" ∧
    Chunk.text c = "" ∧ Py.strip (Chunk.text c) = "".
Proof.
  eexists _, {| Chunk.page := 1; Chunk.chunk_id := "p1_c1"; Chunk.text := "" |}.
  split_and!; [reflexivity| |reflexivity..].
  apply list_elem_of_further, list_elem_of_here.
Qed.

(** ** Conversation memory *)

Lemma ambiguous_spec tokens :
  (Z.of_nat (length tokens) <=? 5)
  || existsb (λ t, bool_decide (t ∈ pronouns)) tokens = true
  ↔ ambiguous tokens.
Proof.
  unfold ambiguous. rewrite orb_true_iff, Z.leb_le, existsb_exists.
  split; (intros [Hlen|(t & Ht & Hp)]; [left; lia|right; exists t]).
  - apply list_elem_of_In in Ht. by apply bool_decide_eq_true in Hp.
  - split; [by apply list_elem_of_In|by apply bool_decide_eq_true].
Qed.

Lemma truthy_spec s : Py.truthy s = true ↔ s ≠ "".
Proof. destruct s; simpl; split; intros; done. Qed.

Lemma _get_session m session_id :
  (_get m session_id).2 = session_of m session_id.
Proof.
  unfold _get, session_of. by destruct (sessions m !! session_id).
Qed.

Lemma contextualize_memory m session_id user_question :
  (contextualize m session_id user_question).1 = (_get m session_id).1.
Proof. unfold contextualize. by destruct (_get m session_id). Qed.

(** C2, as the code has it. [infer_topic] of the question returns
    ["budget"]: the three keywords ["budget"], ["tax"] and ["policy"] occur
    in the question, the first keyword of the list that occurs wins, and
    ["budget"] is at position 0 of the list, before ["tax"] at position 3
    and ["policy"] at position 9. The fallback is not reached. *)
Theorem infer_topic_precedence :
  infer_topic "What is the tax and budget policy?" = "budget" ∧
  first_keyword kws (Py.lower "What is the tax and budget policy?")
  = Some "budget" ∧
  kws !! 0%nat = Some "budget" ∧ kws !! 3%nat = Some "tax" ∧
  kws !! 9%nat = Some "policy".
Proof. split_and!; reflexivity. Qed.

(** C2 as stated fails: the result is not ["tax"]. *)
Lemma infer_topic_not_tax :
  infer_topic "What is the tax and budget policy?" ≠ "tax".
Proof. by vm_compute. Qed.

(** The rule behind C2: a keyword that occurs in the lowered question, and
    before which no keyword of the list occurs, is the result. *)
Lemma first_keyword_first ks ql (i : nat) k :
  ks !! i = Some k → Py.contains k ql = true →
  (∀ (j : nat) k', (j < i)%nat → ks !! j = Some k' → Py.contains k' ql = false) →
  first_keyword ks ql = Some k.
Proof.
  revert i. induction ks as [|k0 ks IH]; intros i Hi Hk Hbefore; [done|].
  destruct i as [|i]; simpl in *.
  - inversion Hi; subst. by rewrite Hk.
  - rewrite (Hbefore 0%nat k0) by (done || lia).
    apply (IH i); [done..|].
    intros j k' Hj Hk'. apply (Hbefore (S j) k'); [lia|done].
Qed.

(** C3, as the code has it. [contextualize] works on the question with the
    whitespace at its two ends removed, [q]. If [q], lowered and split at
    whitespace, has 5 tokens or fewer or has a token among the pronouns, and
    the last topic of the session (the empty string for a session that does
    not exist yet) is not empty, the result is [q] followed by
    [" (context: <last_topic>)"]; in every other case the result is [q]. *)
Theorem contextualize_result (m : ConversationMemory)
    (session_id user_question : string) :
  let s := session_of m session_id in
  let q := Py.strip user_question in
  let tokens := Py.split (Py.lower q) in
  (ambiguous tokens ∧ last_topic s ≠ "" →
   (contextualize m session_id user_question).2
   = q +:+ " (context: " +:+ last_topic s +:+ ")") ∧
  (¬ (ambiguous tokens ∧ last_topic s ≠ "") →
   (contextualize m session_id user_question).2 = q).
Proof.
  intros s q tokens.
  pose proof (ambiguous_spec tokens) as Hamb.
  pose proof (truthy_spec (last_topic s)) as Htopic.
  pose proof (_get_session m session_id) as Hget.
  unfold contextualize. destruct (_get m session_id) as [m' s'].
  simpl in Hget. subst s'. fold s q tokens. simpl.
  destruct ((Z.of_nat (length tokens) <=? 5)
            || existsb (λ t, bool_decide (t ∈ pronouns)) tokens);
    destruct (Py.truthy (last_topic s)); split; try done.
  - intros Hnot. exfalso. apply Hnot. split; [by apply Hamb|by apply Htopic].
  - intros [_ Ht]. apply Htopic in Ht. discriminate.
  - intros [Ha _]. apply Hamb in Ha. discriminate.
  - intros [Ha _]. apply Hamb in Ha. discriminate.
Qed.

(** C3 as stated fails on a question with whitespace at an end: the result
    is built from the trimmed question, not from the question. *)
Lemma contextualize_trims :
  (contextualize ConversationMemory_init "sid" " hello ").2 = "hello" ∧
  (contextualize ConversationMemory_init "sid" " hello ").2 ≠ " hello " ∧
  (contextualize
     {| sessions := {[ "sid" := {| last_topic := "budget";
                                   last_user_question := "";
                                   history := [] |} ]} |}
     "sid" " what about it?").2
  = "what about it? (context: budget)" ∧
  (contextualize
     {| sessions := {[ "sid" := {| last_topic := "budget";
                                   last_user_question := "";
                                   history := [] |} ]} |}
     "sid" " what about it?").2
  ≠ " what about it? (context: budget)".
Proof. split_and!; by vm_compute. Qed.

(** The two examples of the specification: a follow-up with a pronoun in a
    session whose last topic is ["budget"], and a question of six tokens
    without a pronoun. *)
Example contextualize_follow_up :
  (contextualize
     {| sessions := {[ "sid" := {| last_topic := "budget";
                                   last_user_question := "";
                                   history := [] |} ]} |}
     "sid" "what about it?").2
  = "what about it? (context: budget)".
Proof. reflexivity. Qed.

Example contextualize_long_question :
  (contextualize
     {| sessions := {[ "sid" := {| last_topic := "budget";
                                   last_user_question := "";
                                   history := [] |} ]} |}
     "sid" "How large was spending in 2020?").2
  = "How large was spending in 2020?".
Proof. reflexivity. Qed.

(** C5, as the code has it. [contextualize] changes nothing of a memory
    that holds the session already; for a session that does not exist yet
    it inserts the session with the default state, and nothing else: every
    session the memory held is kept as it was. *)
Theorem contextualize_frame (m : ConversationMemory)
    (session_id user_question : string) :
  let m' := (contextualize m session_id user_question).1 in
  (is_Some (sessions m !! session_id) → m' = m) ∧
  (sessions m !! session_id = None →
   sessions m' = <[session_id := SessionState_default]> (sessions m)) ∧
  (∀ sid s, sessions m !! sid = Some s → sessions m' !! sid = Some s) ∧
  (∀ sid, session_of m' sid = session_of m sid).
Proof.
  simpl. rewrite contextualize_memory. unfold _get, session_of.
  destruct (sessions m !! session_id) as [s0|] eqn:Hs; simpl; split_and!.
  - done.
  - done.
  - done.
  - done.
  - by intros [? ?].
  - done.
  - intros sid s Hsid. rewrite lookup_insert_ne; [done|]. congruence.
  - intros sid. destruct (decide (session_id = sid)) as [->|Hne].
    + by rewrite lookup_insert_eq, Hs.
    + by rewrite lookup_insert_ne.
Qed.

(** C5 as stated fails: on a memory without the session, [contextualize]
    adds the session to the sessions map. *)
Lemma contextualize_inserts_session :
  (contextualize ConversationMemory_init "sid" "what about it?").1
  ≠ ConversationMemory_init ∧
  sessions (contextualize ConversationMemory_init "sid" "what about it?").1
  !! "sid" = Some SessionState_default ∧
  sessions ConversationMemory_init !! "sid" = None.
Proof.
  split_and!; [|reflexivity..].
  intros Heq. apply (f_equal (λ m, sessions m !! "sid")) in Heq.
  by vm_compute in Heq.
Qed.

(** ** The retriever *)

Lemma NoDup_range_length (l : list Z) (n : Z) :
  NoDup l → (∀ i, i ∈ l → 0 ≤ i < n) → Z.of_nat (length l) ≤ Z.max n 0.
Proof.
  intros Hnd Hrange.
  assert (Hsub : l ⊆+ seqZ 0 n).
  { apply NoDup_submseteq; [done|].
    intros i Hi. apply elem_of_seqZ. specialize (Hrange i Hi). lia. }
  apply submseteq_length in Hsub. rewrite length_seqZ in Hsub. lia.
Qed.

Lemma index_in_range {A} (l : list A) (i : Z) :
  0 ≤ i < Z.of_nat (length l) →
  ∃ x, Py.index l i = Returned x ∧ l !! Z.to_nat i = Some x.
Proof.
  intros Hi. unfold Py.index.
  destruct (Z.ltb_spec i 0); [lia|].
  destruct (Z.leb_spec 0 i); [|lia].
  destruct (Z.ltb_spec i (Z.of_nat (length l))); [|lia]. simpl.
  destruct (lookup_lt_is_Some_2 l (Z.to_nat i)) as [x Hx]; [lia|].
  rewrite Hx. eauto.
Qed.

Section Retrieval.
Context `{External}.

Lemma search_loop_filtered corpus slots acc :
  (∀ i, i ∈ slots.*1 → i = -1 ∨ 0 ≤ i < Z.of_nat (length corpus)) →
  ∃ new,
    search_loop corpus slots acc = Returned (acc ++ new) ∧
    length new = length (filter (λ i, i ≠ -1) slots.*1) ∧
    ∀ res, res ∈ new →
      ∃ i sc item, (i, sc) ∈ slots ∧ i ≠ -1 ∧
        corpus !! Z.to_nat i = Some item ∧ res = result_of sc item.
Proof.
  revert acc. induction slots as [|[i sc] slots IH]; intros acc Hvalid.
  - exists []. split_and!; [by rewrite app_nil_r|done|by intros ? ?%elem_of_nil].
  - simpl. rewrite filter_cons.
    destruct (Z.eqb_spec i (-1)) as [->|Hi].
    + destruct (IH acc) as (new & Hrun & Hlen & Hnew).
      { intros j Hj. apply Hvalid. by apply list_elem_of_further. }
      exists new. split_and!; [done| |].
      * by rewrite decide_False by (intros Hne; by apply Hne).
      * intros res Hres. destruct (Hnew res Hres) as (j & sc' & item & ? & ?).
        exists j, sc', item. split; [by apply list_elem_of_further|done].
    + destruct (Hvalid i) as [?|Hrange]; [apply list_elem_of_here|done|].
      destruct (index_in_range corpus i Hrange) as (item & -> & Hitem).
      rewrite bind_Returned.
      destruct (IH (acc ++ [result_of sc item])) as (new & Hrun & Hlen & Hnew).
      { intros j Hj. apply Hvalid. by apply list_elem_of_further. }
      exists (result_of sc item :: new). split_and!.
      * unfold result_of in Hrun. rewrite Hrun, <- app_assoc. done.
      * rewrite decide_True by done. simpl. by rewrite Hlen.
      * intros res [->|Hres]%elem_of_cons.
        -- exists i, sc, item. split_and!; try done. apply list_elem_of_here.
        -- destruct (Hnew res Hres) as (j & sc' & item' & ? & ?).
           exists j, sc', item'. split; [by apply list_elem_of_further|done].
Qed.

(** C7. For every query and every [top_k = k ≥ 1], on rows of the index
    that are well formed for the store, [search] returns a sequence of at
    most [k] results and at most as many as the store has chunks: a slot
    that holds the not-found marker [-1] gives no result, and every result
    is the chunk at a position that is not the marker. *)
Theorem search_top_k_bound (r : Retriever) (query : string) (k : Z) :
  1 ≤ k →
  rows_well_formed (Z.of_nat (length (corpus (store r)))) k
    (index_rows r query k) →
  ∃ results,
    search r query (Some k) = Returned results ∧
    Z.of_nat (length results) ≤ k ∧
    (length results ≤ length (corpus (store r)))%nat ∧
    length results = length (filter (λ i, i ≠ -1) (index_rows r query k).2) ∧
    ∀ res, res ∈ results →
      ∃ i sc item, i ∈ (index_rows r query k).2 ∧ i ≠ -1 ∧
        corpus (store r) !! Z.to_nat i = Some item ∧ res = result_of sc item.
Proof.
  intros Hk (Hscores & Hidxs & Hvalid & Hnd).
  unfold search, index_rows in *.
  assert (Hor : or_int (Some k) (TOP_K settings) = k).
  { unfold or_int. destruct (Z.eqb_spec k 0); [lia|done]. }
  rewrite Hor.
  destruct (index_search (index r) (model_encode (model r) query) k)
    as [scores idxs]. simpl in *.
  assert (Hfst : (zip idxs scores).*1 = idxs) by (apply fst_zip; lia).
  destruct (search_loop_filtered (corpus (store r)) (zip idxs scores) [])
    as (results & Hrun & Hlen & Hres).
  { by rewrite Hfst. }
  rewrite Hfst in Hlen.
  exists results. split_and!; [done| | |done|].
  - rewrite Hlen. pose proof (length_filter (λ i, i ≠ -1) idxs). lia.
  - rewrite Hlen.
    assert (Hrange : ∀ i, i ∈ filter (λ i, i ≠ -1) idxs →
                          0 ≤ i < Z.of_nat (length (corpus (store r)))).
    { intros i [Hne Hi]%list_elem_of_filter.
      destruct (Hvalid i Hi); [done|lia]. }
    pose proof (NoDup_range_length _ _ Hnd Hrange). lia.
  - intros res Hin. destruct (Hres res Hin) as (i & sc & item & Hslot & ?).
    exists i, sc, item. split; [|done].
    rewrite <- Hfst. apply list_elem_of_fmap. by exists (i, sc).
Qed.

End Retrieval.

Lemma search_top_k_bound_witness :
  ∃ results,
    search (H := stub_external) stub_retriever "debt" (Some 3)
    = Returned results ∧
    Z.of_nat (length results) ≤ 3 ∧ (length results ≤ 2)%nat.
Proof.
  destruct (search_top_k_bound (H := stub_external) stub_retriever "debt" 3)
    as (results & Hrun & Hk & Hsize & _).
  - lia.
  - split_and!; [reflexivity|reflexivity| |].
    + intros i Hi. vm_compute in Hi.
      repeat (apply elem_of_cons in Hi as [->|Hi]; [simpl; lia|]).
      by apply elem_of_nil in Hi.
    + apply (bool_decide_unpack _). by vm_compute.
  - exists results. split_and!; [exact Hrun|exact Hk|exact Hsize].
Defined.

(** ** Answer assembly *)

Section Answering.
Context `{External}.

(** C8. For every question, the extractive answer generator applied to no
    result returns the fixed message that no relevant information was
    found. *)
Theorem extractive_empty (question : string) :
  generate ExtractiveAnswerGenerator question []
  = Returned "No relevant information found in the document.".
Proof. reflexivity. Qed.

(** The message reaches the caller of [ask] when the search finds nothing. *)
Lemma ask_no_results app req r :
  retriever app = Some r → use_llm req = false →
  search r (contextualize (memory app) (session_id req) (question req)).2
    (Some (or_int (top_k req) (TOP_K settings))) = Returned [] →
  (ask app req).2
  = Returned {| answer := "No relevant information found in the document.";
                results := [] |}.
Proof.
  intros Hr Hllm Hsearch. unfold ask. rewrite Hr.
  destruct (contextualize _ _ _) as [m q_ctx]. simpl in Hsearch.
  by rewrite Hsearch, Hllm.
Qed.

(** The command line front end has a fixed message of its own. *)
Lemma Chatbot_answer_no_results bot sid q k llm :
  search (Chatbot_retriever bot) (contextualize (Chatbot_memory bot) sid q).2
    (Some k) = Returned [] →
  (Chatbot_answer bot sid q k llm).2
  = Returned "I couldn't find anything relevant in the document.".
Proof.
  intros Hsearch. unfold Chatbot_answer.
  destruct (contextualize _ _ _) as [m q_ctx]. simpl in Hsearch.
  by rewrite Hsearch.
Qed.

End Answering.

(** ** What the pipeline stores in the memory *)

Lemma count_nonspace_app a b :
  count_nonspace (a +:+ b) = (count_nonspace a + count_nonspace b)%nat.
Proof.
  induction a as [|c a IH]; [done|].
  change (String c a +:+ b) with (String c (a +:+ b)). simpl. rewrite IH. lia.
Qed.

Lemma count_nonspace_lstrip s : count_nonspace (Py.lstrip s) = count_nonspace s.
Proof.
  induction s as [|c s IH]; simpl; [done|].
  destruct (Py.is_space c) eqn:Hc; simpl; [done|]. by rewrite Hc.
Qed.

Lemma count_nonspace_rstrip s : count_nonspace (Py.rstrip s) = count_nonspace s.
Proof.
  induction s as [|c s IH]; simpl; [done|].
  destruct (Py.rstrip s) as [|c' r]; simpl in *.
  - destruct (Py.is_space c) eqn:Hc; simpl; rewrite ?Hc; lia.
  - lia.
Qed.

Lemma count_nonspace_strip s : count_nonspace (Py.strip s) = count_nonspace s.
Proof.
  unfold Py.strip. by rewrite count_nonspace_rstrip, count_nonspace_lstrip.
Qed.

(** The rewrite of [contextualize] is the trimmed question, or it carries
    the suffix and then is not the question. *)
Lemma contextualize_rewrite m session_id user_question :
  (contextualize m session_id user_question).2 = Py.strip user_question ∨
  (contextualize m session_id user_question).2 ≠ user_question.
Proof.
  unfold contextualize. destruct (_get m session_id) as [m' s]. simpl.
  destruct (_ || _); [|by left].
  destruct (Py.truthy (last_topic s)); [|by left].
  right. intros Heq. apply (f_equal count_nonspace) in Heq.
  rewrite !count_nonspace_app, count_nonspace_strip in Heq.
  simpl in Heq. lia.
Qed.

Lemma update_session_of m sid q topic sid' :
  session_of (update m sid q topic) sid'
  = if decide (sid' = sid)
    then {| last_topic := if Py.truthy topic then topic
                          else last_topic (session_of m sid);
            last_user_question := q;
            history := history (session_of m sid) ++ [q] |}
    else session_of m sid'.
Proof.
  unfold update, _get, session_of.
  destruct (sessions m !! sid) as [s|] eqn:Hs; simpl;
    (destruct (decide (sid' = sid)) as [->|Hne];
     [rewrite lookup_insert_eq; simpl; by destruct (Py.truthy topic)|]).
  - by rewrite lookup_insert_ne.
  - by rewrite !lookup_insert_ne.
Qed.

Lemma contextualize_session_of m sid q sid' :
  session_of (contextualize m sid q).1 sid' = session_of m sid'.
Proof.
  rewrite contextualize_memory. unfold _get, session_of.
  destruct (sessions m !! sid) as [s|] eqn:Hs; simpl; [done|].
  destruct (decide (sid = sid')) as [->|Hne].
  - by rewrite lookup_insert_eq, Hs.
  - by rewrite lookup_insert_ne.
Qed.

Lemma foldl_record_question s qs :
  history (foldl record_question s qs) = history s ++ qs ∧
  last_user_question (foldl record_question s qs)
  = default (last_user_question s) (last qs) ∧
  last_topic (foldl record_question s qs)
  = foldl (λ t q, if Py.truthy (infer_topic q) then infer_topic q else t)
      (last_topic s) qs.
Proof.
  revert s. induction qs as [|q qs IH]; intros s; simpl.
  - by rewrite app_nil_r.
  - destruct (IH (record_question s q)) as (Hh & Hq & Ht).
    rewrite Hh, Hq, Ht. simpl. split_and!.
    + by rewrite <- app_assoc.
    + destruct qs as [|q' qs]; [done|].
      rewrite last_cons_cons.
      destruct (last (q' :: qs)) eqn:Hlast; [done|].
      by apply last_None in Hlast.
    + done.
Qed.

Section Memory.
Context `{External}.

Lemma ask_answered_session app req resp :
  (ask app req).2 = Returned resp →
  ∀ sid,
    session_of (memory (ask app req).1) sid
    = if decide (sid = session_id req)
      then record_question (session_of (memory app) sid) (question req)
      else session_of (memory app) sid.
Proof.
  unfold ask. destruct (retriever app) as [r|]; [|done].
  pose proof (contextualize_session_of (memory app) (session_id req)
                (question req)) as Hctx.
  destruct (contextualize _ _ _) as [m q_ctx]. simpl in Hctx.
  destruct (search r q_ctx _) as [found| |]; simpl; [|done..].
  intros _ sid. rewrite update_session_of.
  destruct (decide (sid = session_id req)) as [->|Hne]; by rewrite !Hctx.
Qed.

Lemma ask_all_sessions app reqs :
  Forall answered (ask_all app reqs).2 →
  ∀ sid,
    session_of (memory (ask_all app reqs).1) sid
    = foldl record_question (session_of (memory app) sid)
        (questions_of sid reqs).
Proof.
  revert app. induction reqs as [|req reqs IH]; intros app Hall sid; [done|].
  simpl in *.
  pose proof (ask_answered_session app req) as Hstep.
  destruct (ask app req) as [app1 out]. simpl in Hstep.
  specialize (IH app1).
  destruct (ask_all app1 reqs) as [app2 outs]. simpl in *.
  apply Forall_cons in Hall as [[resp ->] Hall].
  rewrite (IH Hall sid), (Hstep resp eq_refl sid).
  unfold questions_of. rewrite filter_cons.
  destruct (decide (sid = session_id req)) as [->|Hne].
  - by rewrite decide_True.
  - by rewrite decide_False.
Qed.

(** C10. After a sequence of answered queries, and for every session: the
    history is the history before followed by the questions of the session
    exactly as submitted, in order; the last user question is the last of
    them; and the last topic is the last topic that [infer_topic] found, not
    empty, in a question as submitted. The rewrite of [contextualize] is not
    what is stored: whenever it carries the suffix [" (context: ...)"], it
    is not the question, which is the string stored. *)
Theorem ask_all_stores_questions (app : App) (reqs : list AskReq)
    (sid : string) :
  Forall answered (ask_all app reqs).2 →
  let s := session_of (memory app) sid in
  let s' := session_of (memory (ask_all app reqs).1) sid in
  let qs := questions_of sid reqs in
  history s' = history s ++ qs ∧
  last_user_question s' = default (last_user_question s) (last qs) ∧
  last_topic s'
  = foldl (λ t q, if Py.truthy (infer_topic q) then infer_topic q else t)
      (last_topic s) qs ∧
  ∀ m req, req ∈ reqs →
    (contextualize m (session_id req) (question req)).2
    = Py.strip (question req) ∨
    (contextualize m (session_id req) (question req)).2 ≠ question req.
Proof.
  intros Hall s s' qs. subst s'.
  rewrite (ask_all_sessions app reqs Hall sid). fold s qs.
  destruct (foldl_record_question s qs) as (Hh & Hq & Ht).
  split_and!; [done..|].
  intros m req _. apply contextualize_rewrite.
Qed.

(** The command line front end stores the same: the question as typed. *)
Lemma Chatbot_answer_session bot sid q k llm (answer : string) :
  (Chatbot_answer bot sid q k llm).2 = Returned answer →
  session_of (Chatbot_memory (Chatbot_answer bot sid q k llm).1) sid
  = record_question (session_of (Chatbot_memory bot) sid) q.
Proof.
  unfold Chatbot_answer.
  pose proof (contextualize_session_of (Chatbot_memory bot) sid q) as Hctx.
  destruct (contextualize _ _ _) as [m q_ctx]. simpl in Hctx.
  destruct (search _ q_ctx _) as [found| |]; simpl; [|done..].
  intros _. rewrite update_session_of, decide_True by done.
  by rewrite Hctx.
Qed.

End Memory.

Lemma ask_all_stores_questions_witness :
  (contextualize (memory (ask stub_app stub_first).1) "s" "what about it?").2
  = "what about it? (context: budget)" ∧
  history (session_of (memory (ask_all stub_app [stub_first; stub_second]).1) "s")
  = ["What is the budget?"; "what about it?"].
Proof.
  split; [reflexivity|].
  destruct (ask_all_stores_questions (H := stub_external) stub_app
              [stub_first; stub_second] "s") as (Hh & _).
  - repeat (constructor; [eexists; reflexivity|]). constructor.
  - rewrite Hh. reflexivity.
Defined.

(** * More properties of the code *)

(** ** The chunker: closed form and reassembly *)

Lemma take_app_drop k m s :
  Py.take k s +:+ Py.take m (Py.drop k s) = Py.take (k + m) s.
Proof.
  revert s. induction k as [|k IH]; intros s; [done|].
  destruct s as [|c s]; simpl; [by destruct m|].
  change (String c (Py.take k s) +:+ Py.take m (Py.drop k s))
    with (String c (Py.take k s +:+ Py.take m (Py.drop k s))).
  by rewrite IH.
Qed.

(** Two slices that meet make one slice. *)
Lemma slice_app s a b c :
  0 ≤ a → a ≤ b → b ≤ c → c ≤ Py.len s →
  Py.slice s a b +:+ Py.slice s b c = Py.slice s a c.
Proof.
  intros Ha Hab Hbc Hc. unfold Py.slice. rewrite !clamp_id by lia.
  replace (Z.to_nat b) with (Z.to_nat a + Z.to_nat (b - a))%nat by lia.
  rewrite <- drop_drop, take_app_drop. f_equal. lia.
Qed.

(** The end of a slice is clamped to the length of the string. *)
Lemma slice_clamp_end s a b :
  0 ≤ a → Py.slice s a b = Py.slice s a (Z.min b (Py.len s)).
Proof.
  intros Ha. unfold Py.slice, Py.clamp.
  pose proof (len_nonneg s).
  destruct (Z.ltb_spec a 0); [lia|].
  destruct (Z.ltb_spec b 0), (Z.ltb_spec (b `min` Py.len s) 0); try lia.
  - do 2 f_equal. lia.
  - do 2 f_equal. lia.
Qed.

Section ClosedForm.
Variables (n chunk_size overlap : Z).
Hypothesis chunk_size_pos : 0 < chunk_size.
Hypothesis overlap_valid : 0 ≤ overlap < chunk_size.

Lemma chunk_count_fits m :
  0 < m → m ≤ chunk_size → chunk_count m chunk_size overlap = 1.
Proof.
  intros Hpos Hfits. unfold chunk_count.
  destruct (Z.leb_spec m 0); [lia|].
  rewrite Z.max_l by lia. rewrite Z.div_small by lia. lia.
Qed.

Lemma chunk_count_step m :
  chunk_size < m →
  chunk_count m chunk_size overlap
  = 1 + chunk_count (m - (chunk_size - overlap)) chunk_size overlap.
Proof.
  intros Hlong. unfold chunk_count.
  destruct (Z.leb_spec m 0); [lia|].
  destruct (Z.leb_spec (m - (chunk_size - overlap)) 0); [lia|].
  f_equal. rewrite (Z.max_r 0 (m - chunk_size)) by lia.
  destruct (Z_lt_le_dec (m - (chunk_size - overlap) - chunk_size) 0).
  - rewrite Z.max_l by lia.
    rewrite (Z.div_small (0 + _ - 1)) by lia.
    symmetry. apply (Z.div_unique _ _ 1 (m - chunk_size - 1)); lia.
  - rewrite Z.max_r by lia.
    replace (m - chunk_size + (chunk_size - overlap) - 1)
      with (m - (chunk_size - overlap) - chunk_size
            + (chunk_size - overlap) - 1
            + 1 * (chunk_size - overlap)) by lia.
    rewrite Z.div_add by lia. lia.
Qed.

Lemma chunk_count_nonneg m : 0 ≤ chunk_count m chunk_size overlap.
Proof.
  unfold chunk_count. destruct (Z.leb_spec m 0); [lia|].
  assert (0 ≤ (Z.max 0 (m - chunk_size) + (chunk_size - overlap) - 1)
              `div` (chunk_size - overlap)) by (apply Z.div_pos; lia).
  lia.
Qed.

(** The windows from [start] on, in closed form. *)
Lemma windows_closed_form start ws :
  windows n chunk_size overlap start ws →
  ws = (λ i, (start + i * (chunk_size - overlap),
              Z.min (start + i * (chunk_size - overlap) + chunk_size) n))
       <$> seqZ 0 (chunk_count (n - start) chunk_size overlap).
Proof.
  induction 1 as [start Hge|start Hlt Hend|start rest Hlt Hrest IH].
  - unfold chunk_count. destruct (Z.leb_spec (n - start) 0); [done|lia].
  - rewrite chunk_count_fits by lia. simpl.
    do 2 f_equal; lia.
  - rewrite chunk_count_step by lia.
    pose proof (chunk_count_nonneg (n - start - (chunk_size - overlap))).
    rewrite seqZ_cons by lia. rewrite fmap_cons. f_equal.
    + f_equal; lia.
    + rewrite IH.
      replace (Z.pred (1 + chunk_count (n - start - (chunk_size - overlap))
                             chunk_size overlap))
        with (chunk_count (n - (start + chunk_size - overlap))
                chunk_size overlap)
        by (replace (n - (start + chunk_size - overlap))
              with (n - start - (chunk_size - overlap)) by lia; lia).
      rewrite <- (fmap_add_seqZ 1 0), <- list_fmap_compose.
      apply list_fmap_ext. intros _ i _. simpl. f_equal; [lia|f_equal; lia].
Qed.

End ClosedForm.

(** X1. Under a valid pair of parameters the chunks are, in closed form, the
    slices [text[i*step : i*step + chunk_size]] for [i] from 0 up to the
    chunk count, with [step = chunk_size - overlap]. *)
Theorem chunk_text_closed_form (fuel : nat) (text : string)
    (chunk_size overlap : Z) :
  0 < chunk_size → 0 ≤ overlap < chunk_size →
  (String.length text < fuel)%nat →
  chunk_text fuel text chunk_size overlap
  = Returned
      ((λ i, Py.slice text (i * (chunk_size - overlap))
                           (i * (chunk_size - overlap) + chunk_size))
       <$> seqZ 0 (chunk_count (Py.len text) chunk_size overlap)).
Proof.
  intros Hsize Hoverlap Hfuel.
  destruct (chunk_text_runs text chunk_size overlap Hsize Hoverlap)
    as (spans & Hws & Hrun).
  destruct (Hrun fuel Hfuel) as [_ ->]. f_equal.
  rewrite (windows_closed_form _ _ _ Hsize Hoverlap _ _ Hws).
  rewrite <- list_fmap_compose, Z.sub_0_r.
  apply list_fmap_ext. intros j i Hi.
  apply lookup_seqZ in Hi as [-> _].
  unfold window. simpl. symmetry.
  rewrite slice_clamp_end by nia.
  by rewrite !Z.add_0_l.
Qed.

Lemma chunk_text_closed_form_witness :
  chunk_text 27 "abcdefghijklmnopqrstuvwxyz" 10 2
  = Returned ((λ i, Py.slice "abcdefghijklmnopqrstuvwxyz" (i * 8) (i * 8 + 10))
              <$> [0; 1; 2]).
Proof.
  apply (chunk_text_closed_form 27 "abcdefghijklmnopqrstuvwxyz" 10 2);
    [lia|lia|simpl; lia].
Defined.

Lemma app_empty_r s : s +:+ "" = s.
Proof.
  induction s as [|c s IH]; [done|].
  change (String c s +:+ "") with (String c (s +:+ "")). by rewrite IH.
Qed.

Lemma slice_empty s a : 0 ≤ a → a ≤ Py.len s → Py.slice s a a = "".
Proof.
  intros Ha Hb. unfold Py.slice. rewrite !clamp_id by lia.
  by rewrite Z.sub_diag.
Qed.

Lemma fresh_parts_windows text chunk_size overlap start ws :
  0 < chunk_size → 0 ≤ overlap < chunk_size →
  windows (Py.len text) chunk_size overlap start ws →
  0 ≤ start → start + overlap ≤ Py.len text →
  fresh_parts overlap (window text <$> ws)
  = Py.slice text (start + overlap) (Py.len text).
Proof.
  intros Hsize Hoverlap Hws.
  induction Hws as [start Hge|start Hlt Hend|start rest Hlt Hrest IH];
    intros Hstart Hfits.
  - replace (start + overlap) with (Py.len text) by lia.
    by rewrite slice_empty by lia.
  - change (fresh_parts overlap (window text <$> [(start, Py.len text)]))
      with (Py.slice (Py.slice text start (Py.len text)) overlap
              (Py.len (Py.slice text start (Py.len text))) +:+ "").
    rewrite app_empty_r, len_slice by lia. rewrite slice_slice by lia.
    f_equal. lia.
  - change (fresh_parts overlap
              (window text <$> (start, start + chunk_size) :: rest))
      with (Py.slice (Py.slice text start (start + chunk_size)) overlap
              (Py.len (Py.slice text start (start + chunk_size)))
            +:+ fresh_parts overlap (window text <$> rest)).
    rewrite len_slice by lia. rewrite slice_slice by lia.
    rewrite IH by lia.
    replace (start + (start + chunk_size - start))
      with (start + chunk_size) by lia.
    replace (start + chunk_size - overlap + overlap)
      with (start + chunk_size) by lia.
    apply slice_app; lia.
Qed.

(** X2. Under a valid pair of parameters no character is lost and none is
    out of place: the first chunk followed by every later chunk without its
    first [overlap] characters is the text. *)
Theorem chunk_text_reassemble (fuel : nat) (text : string)
    (chunk_size overlap : Z) :
  0 < chunk_size → 0 ≤ overlap < chunk_size →
  (String.length text < fuel)%nat →
  ∃ chunks,
    chunk_text fuel text chunk_size overlap = Returned chunks ∧
    reassemble overlap chunks = text.
Proof.
  intros Hsize Hoverlap Hfuel.
  destruct (chunk_text_runs text chunk_size overlap Hsize Hoverlap)
    as (spans & Hws & Hrun).
  destruct (Hrun fuel Hfuel) as [_ ->].
  exists (window text <$> spans). split; [done|].
  pose proof (len_nonneg text).
  inversion Hws as [? Hge|? Hlt Hend|? rest Hlt Hrest]; subst.
  - symmetry. apply len_empty. lia.
  - change (reassemble overlap (window text <$> [(0, Py.len text)]))
      with (Py.slice text 0 (Py.len text) +:+ "").
    by rewrite app_empty_r, slice_all.
  - change (reassemble overlap
              (window text <$> (0, 0 + chunk_size) :: rest))
      with (Py.slice text 0 (0 + chunk_size)
            +:+ fresh_parts overlap (window text <$> rest)).
    rewrite (fresh_parts_windows text chunk_size overlap
               (0 + chunk_size - overlap) rest) by (done || lia).
    replace (0 + chunk_size - overlap + overlap) with (0 + chunk_size) by lia.
    rewrite slice_app by lia. apply slice_all.
Qed.

Lemma chunk_text_reassemble_witness :
  ∃ chunks,
    chunk_text 27 "abcdefghijklmnopqrstuvwxyz" 10 2 = Returned chunks ∧
    reassemble 2 chunks = "abcdefghijklmnopqrstuvwxyz".
Proof.
  apply (chunk_text_reassemble 27 "abcdefghijklmnopqrstuvwxyz" 10 2);
    [lia|lia|simpl; lia].
Defined.

Lemma chunk_loop_stuck_at_zero fuel text chunk_size overlap chunks :
  chunk_size ≤ 0 → 0 ≤ overlap → 0 < Py.len text →
  chunk_loop fuel text chunk_size overlap 0 chunks = OutOfFuel.
Proof.
  intros Hsize Hoverlap Hlen. revert chunks.
  induction fuel as [|fuel IH]; intros chunks; [done|].
  simpl. rewrite Z.add_0_l. destruct (Z.ltb_spec 0 (Py.len text)); [|lia].
  destruct (Z.eqb_spec (chunk_size `min` Py.len text) (Py.len text)); [lia|].
  destruct (Z.ltb_spec (chunk_size `min` Py.len text - overlap) 0).
  - apply IH.
  - replace (chunk_size `min` Py.len text - overlap) with 0 by lia. apply IH.
Qed.

(** X3. With a chunk size that is not positive and an overlap that is not
    negative, the call on a text that is not empty never returns: the start
    offset stays at 0. *)
Theorem chunk_text_nonpositive_size (text : string) (chunk_size overlap : Z) :
  chunk_size ≤ 0 → 0 ≤ overlap → text ≠ "" →
  ∀ fuel, chunk_text fuel text chunk_size overlap = OutOfFuel.
Proof.
  intros Hsize Hoverlap Htext fuel. apply chunk_loop_stuck_at_zero; try done.
  pose proof (len_nonneg text). pose proof (len_empty text).
  destruct (Z.eq_dec (Py.len text) 0); [tauto|lia].
Qed.

Lemma chunk_text_nonpositive_size_witness :
  chunk_text 1000 "abc" 0 0 = OutOfFuel.
Proof.
  apply (chunk_text_nonpositive_size "abc" 0 0); [lia|lia|done].
Defined.

(** ** The corpus builder: composition and identifiers *)

Lemma build_corpus_loop_acc fuel pages chunk_size overlap corpus :
  build_corpus_loop fuel pages chunk_size overlap corpus
  = new ← build_corpus_loop fuel pages chunk_size overlap [];
    mret (corpus ++ new).
Proof.
  revert corpus. induction pages as [|p pages IH]; intros corpus; simpl.
  - by rewrite app_nil_r.
  - destruct (chunk_text fuel (Page.text p) chunk_size overlap)
      as [chunks| |]; [|done..].
    simpl. rewrite IH. rewrite (IH (corpus_of_chunks _ _ _)).
    destruct (build_corpus_loop fuel pages chunk_size overlap [])
      as [new| |]; [|done..].
    simpl. unfold mret, res_ret. by rewrite app_assoc.
Qed.

Lemma build_corpus_loop_app fuel pages1 pages2 chunk_size overlap corpus :
  build_corpus_loop fuel (pages1 ++ pages2) chunk_size overlap corpus
  = corpus1 ← build_corpus_loop fuel pages1 chunk_size overlap corpus;
    corpus2 ← build_corpus_loop fuel pages2 chunk_size overlap [];
    mret (corpus1 ++ corpus2).
Proof.
  revert corpus. induction pages1 as [|p pages1 IH]; intros corpus; simpl.
  - apply build_corpus_loop_acc.
  - destruct (chunk_text fuel (Page.text p) chunk_size overlap)
      as [chunks| |]; [|done..].
    simpl. apply IH.
Qed.

(** X4. Building the corpus of two sequences of pages, one after the other,
    is building the two corpora and appending them, whatever the parameters:
    the chunks of a page do not depend on the pages around it. *)
Theorem build_corpus_app (fuel : nat) (pages1 pages2 : list Page.t)
    (chunk_size overlap : Z) :
  build_corpus fuel (pages1 ++ pages2) chunk_size overlap
  = corpus1 ← build_corpus fuel pages1 chunk_size overlap;
    corpus2 ← build_corpus fuel pages2 chunk_size overlap;
    mret (corpus1 ++ corpus2).
Proof. apply build_corpus_loop_app. Qed.

Lemma has_char_pretty_N_go c x s :
  (∀ d, pretty_N_char d ≠ c) →
  has_char c (pretty_N_go x s) = has_char c s.
Proof.
  intros Hc. revert s. induction (N.lt_wf_0 x) as [x _ IH]; intros s.
  assert (x = 0 ∨ 0 < x)%N as [->|Hpos] by lia.
  - by rewrite pretty_N_go_0.
  - rewrite pretty_N_go_step by done. rewrite IH by (by apply N.div_lt).
    simpl. destruct (Ascii.eqb_spec (pretty_N_char (x `mod` 10)) c) as [Heq|];
      [by destruct (Hc _ Heq)|done].
Qed.

Lemma pretty_N_char_not_underscore d : pretty_N_char d ≠ "_"%char.
Proof. unfold pretty_N_char. by repeat case_match. Qed.

(** The decimal form of an integer has no underscore. *)
Lemma has_char_pretty_Z (z : Z) : has_char "_" (pretty z) = false.
Proof.
  assert (HN : ∀ n : N, has_char "_" (pretty n) = false).
  { intros n. unfold pretty, pretty_N. case_decide; [done|].
    by rewrite has_char_pretty_N_go by apply pretty_N_char_not_underscore. }
  destruct z as [|p|p]; [done|apply (HN (N.pos p))|].
  change (pretty (Z.neg p)) with (String "-" (pretty (N.pos p))).
  simpl. apply HN.
Qed.

(** Two strings without underscore that are followed by an underscore. *)
Lemma app_underscore_inj u u' r r' :
  has_char "_" u = false → has_char "_" u' = false →
  u +:+ String "_" r = u' +:+ String "_" r' → u = u' ∧ r = r'.
Proof.
  revert u'. induction u as [|c u IH]; intros [|c' u'] Hu Hu' Heq;
    simpl in Hu, Hu'.
  - by inversion Heq.
  - inversion Heq; subst. by apply orb_false_iff in Hu' as [? _].
  - inversion Heq; subst. by apply orb_false_iff in Hu as [? _].
  - apply orb_false_iff in Hu as [_ Hu]. apply orb_false_iff in Hu' as [_ Hu'].
    inversion Heq; subst.
    destruct (IH u' Hu Hu') as [-> ->]; done.
Qed.

Global Instance id_of_key_inj : Inj (=) (=) id_of_key.
Proof.
  intros [a b] [a' b'] Heq. unfold id_of_key in Heq. simpl in Heq.
  inversion Heq as [Heq'].
  apply app_underscore_inj in Heq' as [Ha Hb]; [|apply has_char_pretty_Z..].
  inversion Hb as [Hb'].
  by rewrite (inj pretty _ _ Ha), (inj pretty _ _ Hb').
Qed.

Lemma corpus_of_chunks_ids page idx chunks :
  Chunk.chunk_id <$> corpus_of_chunks page idx chunks
  = id_of_key <$> ((λ i, (page, i)) <$> seqZ idx (Z.of_nat (length chunks))).
Proof.
  revert idx. induction chunks as [|ch chunks IH]; intros idx; [done|].
  rewrite seqZ_cons by (simpl; lia).
  change (corpus_of_chunks page idx (ch :: chunks))
    with ({| Chunk.page := page;
             Chunk.chunk_id := id_of_key (page, idx);
             Chunk.text := Py.strip ch |}
          :: corpus_of_chunks page (idx + 1) chunks).
  rewrite !fmap_cons, IH. simpl Chunk.chunk_id.
  replace (Z.succ idx) with (idx + 1) by lia.
  replace (Z.pred (Z.of_nat (length (ch :: chunks))))
    with (Z.of_nat (length chunks)) by (simpl length; lia).
  done.
Qed.

Lemma NoDup_page_keys page k : NoDup (page_keys page k).
Proof.
  unfold page_keys. apply NoDup_fmap_2; [|apply NoDup_seqZ].
  by intros i j [= ->].
Qed.

(** The identifiers of a corpus are those of keys whose pages are pages of
    the input, with no key twice when no page number comes twice. *)
Lemma build_corpus_loop_keys fuel pages chunk_size overlap corpus result :
  build_corpus_loop fuel pages chunk_size overlap corpus = Returned result →
  ∃ keys,
    Chunk.chunk_id <$> result
    = (Chunk.chunk_id <$> corpus) ++ (id_of_key <$> keys) ∧
    (∀ key, key ∈ keys → key.1 ∈ Page.page <$> pages ∧ 0 ≤ key.2) ∧
    (NoDup (Page.page <$> pages) → NoDup keys).
Proof.
  revert corpus. induction pages as [|p pages IH]; intros corpus; simpl.
  - intros [= <-]. exists []. split_and!.
    + by rewrite app_nil_r.
    + by intros key ?%elem_of_nil.
    + intros _. apply NoDup_nil_2.
  - destruct (chunk_text fuel (Page.text p) chunk_size overlap)
      as [chunks| |]; [|done..].
    simpl. intros Hrun. destruct (IH _ Hrun) as (keys & Hids & Hpages & Hnd).
    exists (page_keys (Page.page p) (length chunks) ++ keys). split_and!.
    + rewrite Hids, fmap_app, corpus_of_chunks_ids, fmap_app.
      by rewrite <- app_assoc.
    + intros key [Hkey|Hkey]%elem_of_app.
      * apply list_elem_of_fmap in Hkey as (i & -> & Hi).
        apply elem_of_seqZ in Hi. split; [apply list_elem_of_here|simpl; lia].
      * destruct (Hpages key Hkey). split; [|done].
        by apply list_elem_of_further.
    + intros [Hp Hrest]%NoDup_cons. apply NoDup_app. split_and!.
      * apply NoDup_page_keys.
      * intros key Hkey Hkey'.
        apply list_elem_of_fmap in Hkey as (i & -> & _).
        by apply Hpages in Hkey' as [? _].
      * by apply Hnd.
Qed.

(** X5. In a corpus built from pages whose numbers are pairwise distinct,
    no chunk identifier comes twice. *)
Theorem build_corpus_ids_unique (fuel : nat) (pages : list Page.t)
    (chunk_size overlap : Z) (corpus : list Chunk.t) :
  NoDup (Page.page <$> pages) →
  build_corpus fuel pages chunk_size overlap = Returned corpus →
  NoDup (Chunk.chunk_id <$> corpus).
Proof.
  intros Hpages Hrun.
  destruct (build_corpus_loop_keys _ _ _ _ _ _ Hrun) as (keys & -> & _ & Hnd).
  simpl. apply NoDup_fmap_2; [apply _|by apply Hnd].
Qed.

Lemma build_corpus_ids_unique_witness :
  NoDup ["p1_c0"; "p1_c1"; "p1_c2"; "p3_c0"].
Proof.
  apply (build_corpus_ids_unique 7
           [{| Page.page := 1; Page.text := "a    b" |};
            {| Page.page := 3; Page.text := "cd" |}] 2 0
           [{| Chunk.page := 1; Chunk.chunk_id := "p1_c0"; Chunk.text := "a" |};
            {| Chunk.page := 1; Chunk.chunk_id := "p1_c1"; Chunk.text := "" |};
            {| Chunk.page := 1; Chunk.chunk_id := "p1_c2"; Chunk.text := "b" |};
            {| Chunk.page := 3; Chunk.chunk_id := "p3_c0"; Chunk.text := "cd" |}]).
  - apply (bool_decide_unpack _). by vm_compute.
  - reflexivity.
Defined.

(** X6. Under a valid pair of parameters no page with text is lost: the
    corpus holds, for every page whose text is not empty, the chunk of its
    first window, with the window index 0 in its identifier. *)
Theorem build_corpus_every_page (fuel : nat) (pages : list Page.t)
    (chunk_size overlap : Z) :
  0 < chunk_size → 0 ≤ overlap < chunk_size →
  (∀ p, p ∈ pages → (String.length (Page.text p) < fuel)%nat) →
  ∃ corpus,
    build_corpus fuel pages chunk_size overlap = Returned corpus ∧
    ∀ p, p ∈ pages → Page.text p ≠ "" →
      {| Chunk.page := Page.page p;
         Chunk.chunk_id := "p" +:+ pretty (Page.page p) +:+ "_c0";
         Chunk.text := Py.strip (Py.slice (Page.text p) 0 chunk_size) |}
      ∈ corpus.
Proof.
  intros Hsize Hoverlap. unfold build_corpus. generalize (@nil Chunk.t).
  induction pages as [|p pages IH]; intros acc Hfuel; simpl.
  - exists acc. split; [done|]. by intros p ?%elem_of_nil.
  - destruct (chunk_text_runs (Page.text p) chunk_size overlap Hsize Hoverlap)
      as (spans & Hws & Hrun).
    destruct (Hrun fuel) as [_ ->]; [apply Hfuel, list_elem_of_here|].
    simpl.
    destruct (IH (acc ++ corpus_of_chunks (Page.page p) 0
                           (window (Page.text p) <$> spans)))
      as (corpus & Hcorpus & Hall).
    { intros p' Hp'. by apply Hfuel, list_elem_of_further. }
    exists corpus. split; [done|].
    intros p' [->|Hp']%elem_of_cons Htext; [|by apply Hall].
    rewrite build_corpus_loop_acc in Hcorpus.
    destruct (build_corpus_loop fuel pages chunk_size overlap [])
      as [new| |]; [|done..].
    simpl in Hcorpus. injection Hcorpus as <-.
    apply elem_of_app. left. apply elem_of_app. right.
    pose proof (len_nonneg (Page.text p)). pose proof (len_empty (Page.text p)).
    inversion Hws as [? Hge|? Hlt Hend|? rest Hlt Hrest]; subst.
    + assert (Py.len (Page.text p) = 0) by lia. tauto.
    + rewrite (slice_clamp_end _ 0 chunk_size) by lia.
      rewrite Z.min_r by lia. apply list_elem_of_here.
    + apply list_elem_of_here.
Qed.

Lemma build_corpus_every_page_witness :
  ∃ corpus,
    build_corpus 7 [{| Page.page := 4; Page.text := "a    b" |}] 2 0
    = Returned corpus ∧
    {| Chunk.page := 4; Chunk.chunk_id := "p4_c0"; Chunk.text := "a" |}
    ∈ corpus.
Proof.
  destruct (build_corpus_every_page 7
              [{| Page.page := 4; Page.text := "a    b" |}] 2 0)
    as (corpus & Hrun & Hall); [lia|lia| |].
  - intros p ->%list_elem_of_singleton. simpl. lia.
  - exists corpus. split; [exact Hrun|].
    apply (Hall {| Page.page := 4; Page.text := "a    b" |});
      [apply list_elem_of_here|done].
Defined.

(** ** Reading the pages of a PDF *)

Lemma has_char_lstrip c s :
  has_char c s = false → has_char c (Py.lstrip s) = false.
Proof.
  induction s as [|c' s IH]; simpl; [done|].
  intros [? ?]%orb_false_iff.
  destruct (Py.is_space c'); [by apply IH|]. simpl. by apply orb_false_iff.
Qed.

Lemma has_char_rstrip c s :
  has_char c s = false → has_char c (Py.rstrip s) = false.
Proof.
  induction s as [|c' s IH]; simpl; [done|].
  intros [Hc Hs]%orb_false_iff. specialize (IH Hs).
  destruct (Py.rstrip s) as [|c'' r].
  - destruct (Py.is_space c'); simpl; [done|]. by rewrite Hc.
  - change (has_char c (String c' (String c'' r)))
      with (Ascii.eqb c' c || has_char c (String c'' r)).
    by rewrite Hc, IH.
Qed.

Lemma has_char_remove_char c s : has_char c (remove_char c s) = false.
Proof.
  induction s as [|c' s IH]; simpl; [done|].
  destruct (Ascii.eqb c' c) eqn:Hc; [done|]. simpl. by rewrite Hc.
Qed.

Lemma has_char_clean_text t : has_char "000" (clean_text t) = false.
Proof.
  unfold clean_text, Py.strip.
  apply has_char_rstrip, has_char_lstrip, has_char_remove_char.
Qed.

(** What the loop keeps, for the pages numbered from [i] on. *)
Lemma read_pages_loop_spec i extracted :
  (∀ p, p ∈ read_pages_loop i extracted →
     ∃ (j : nat) t, extracted !! j = Some t ∧
       Page.page p = i + Z.of_nat j ∧ Page.text p = clean_text t ∧
       Page.text p ≠ "") ∧
  (∀ (j : nat) t, extracted !! j = Some t → clean_text t ≠ "" →
     {| Page.page := i + Z.of_nat j; Page.text := clean_text t |}
     ∈ read_pages_loop i extracted) ∧
  StronglySorted Z.lt (Page.page <$> read_pages_loop i extracted).
Proof.
  revert i. induction extracted as [|t extracted IH]; intros i.
  { split_and!; [by intros p ?%elem_of_nil|done|constructor]. }
  destruct (IH (i + 1)) as (Hin & Hkept & Hsorted).
  simpl. fold (clean_text t).
  assert (Hlater : ∀ p, p ∈ read_pages_loop (i + 1) extracted →
            ∃ (j : nat) t', (t :: extracted) !! j = Some t' ∧
              Page.page p = i + Z.of_nat j ∧ Page.text p = clean_text t' ∧
              Page.text p ≠ "").
  { intros p Hp. destruct (Hin p Hp) as (j & t' & Hj & Hpage & Htext & Hne).
    exists (S j), t'. split_and!; [done|lia|done|done]. }
  assert (Hkept' : ∀ (j : nat) t', extracted !! j = Some t' →
            clean_text t' ≠ "" →
            {| Page.page := i + Z.of_nat (S j); Page.text := clean_text t' |}
            ∈ read_pages_loop (i + 1) extracted).
  { intros j t' Hj Hne.
    replace (i + Z.of_nat (S j)) with (i + 1 + Z.of_nat j) by lia.
    by apply Hkept. }
  destruct (Py.truthy (clean_text t)) eqn:Htruthy.
  - apply truthy_spec in Htruthy. split_and!.
    + intros p [->|Hp]%elem_of_cons; [|by apply Hlater].
      exists 0%nat, t. split_and!; [done|simpl; lia|done|done].
    + intros [|j] t' Hj Hne; simpl in Hj.
      * injection Hj as <-. rewrite Z.add_0_r. apply list_elem_of_here.
      * apply list_elem_of_further. by apply Hkept'.
    + rewrite fmap_cons. constructor; [done|].
      apply Forall_forall. intros n Hn.
      apply list_elem_of_fmap in Hn as (p & -> & Hp).
      destruct (Hin p Hp) as (j & _ & _ & Hpage & _). simpl. lia.
  - assert (clean_text t = "") as Hempty.
    { destruct (clean_text t); [done|discriminate]. }
    split_and!; [done| |done].
    intros [|j] t' Hj Hne; simpl in Hj.
    + injection Hj as <-. done.
    + by apply Hkept'.
Qed.

(** X7. [read_pdf_with_pages] keeps exactly the pages whose cleaned text is
    not empty, under their 1-based position in the file: the pages come in
    strictly increasing page number, and every text kept is not empty, is
    trimmed and has no NUL character. *)
Theorem read_pdf_with_pages_kept (extracted : list (option string)) :
  (∀ p, p ∈ read_pdf_with_pages extracted →
     ∃ t, extracted !! Z.to_nat (Page.page p - 1) = Some t ∧
       1 ≤ Page.page p ≤ Z.of_nat (length extracted) ∧
       Page.text p = clean_text t ∧
       Page.text p ≠ "" ∧ trimmed (Page.text p) ∧
       has_char "000" (Page.text p) = false) ∧
  (∀ (j : nat) t, extracted !! j = Some t → clean_text t ≠ "" →
     {| Page.page := 1 + Z.of_nat j; Page.text := clean_text t |}
     ∈ read_pdf_with_pages extracted) ∧
  StronglySorted Z.lt (Page.page <$> read_pdf_with_pages extracted).
Proof.
  destruct (read_pages_loop_spec 1 extracted) as (Hin & Hkept & Hsorted).
  split_and!; [|done..].
  intros p Hp. destruct (Hin p Hp) as (j & t & Hj & Hpage & Htext & Hne).
  pose proof (lookup_lt_Some _ _ _ Hj).
  exists t. replace (Z.to_nat (Page.page p - 1)) with j by lia.
  split_and!; try done; try lia.
  - rewrite Htext. apply strip_trimmed.
  - rewrite Htext. apply has_char_clean_text.
Qed.

Lemma StronglySorted_lt_NoDup (l : list Z) : StronglySorted Z.lt l → NoDup l.
Proof.
  induction 1 as [|x l Hsorted IH Hall]; [apply NoDup_nil_2|].
  apply NoDup_cons. split; [|done].
  intros Hx. rewrite Forall_forall in Hall. specialize (Hall x Hx). lia.
Qed.

Lemma read_pdf_with_pages_NoDup extracted :
  NoDup (Page.page <$> read_pdf_with_pages extracted).
Proof. apply StronglySorted_lt_NoDup, read_pages_loop_spec. Qed.

(** X8. Whatever the PDF reader extracted and whatever the parameters, a
    corpus built from the pages that [read_pdf_with_pages] keeps has no
    chunk identifier twice, and every chunk carries the 1-based number of a
    page of the file. *)
Theorem ingest_ids_unique (fuel : nat) (extracted : list (option string))
    (chunk_size overlap : Z) (corpus : list Chunk.t) :
  build_corpus fuel (read_pdf_with_pages extracted) chunk_size overlap
  = Returned corpus →
  NoDup (Chunk.chunk_id <$> corpus) ∧
  ∀ c, c ∈ corpus →
    ∃ (i : Z) (j : Z),
      1 ≤ i ≤ Z.of_nat (length extracted) ∧ 0 ≤ j ∧
      Chunk.chunk_id c = "p" +:+ pretty i +:+ "_c" +:+ pretty j.
Proof.
  intros Hrun.
  destruct (build_corpus_loop_keys _ _ _ _ _ _ Hrun) as (keys & Hids & Hin & Hnd).
  simpl in Hids. split.
  - rewrite Hids. apply NoDup_fmap_2; [apply _|].
    apply Hnd, read_pdf_with_pages_NoDup.
  - intros c Hc.
    assert (Hid : Chunk.chunk_id c ∈ id_of_key <$> keys).
    { rewrite <- Hids. by apply list_elem_of_fmap_2. }
    apply list_elem_of_fmap in Hid as ([i j] & Hid & Hkey).
    exists i, j. destruct (Hin _ Hkey) as [Hpage Hj]. simpl in Hpage, Hj.
    split_and!; [..|done|done].
    + apply list_elem_of_fmap in Hpage as (p & -> & Hp).
      destruct (read_pages_loop_spec 1 extracted) as (Hpages & _).
      destruct (Hpages p Hp) as (k & t & Hk & -> & _). lia.
    + apply list_elem_of_fmap in Hpage as (p & -> & Hp).
      destruct (read_pages_loop_spec 1 extracted) as (Hpages & _).
      destruct (Hpages p Hp) as (k & t & Hk & -> & _).
      pose proof (lookup_lt_Some _ _ _ Hk). lia.
Qed.

Lemma ingest_ids_unique_witness :
  NoDup ["p1_c0"; "p3_c0"; "p3_c1"].
Proof.
  apply (ingest_ids_unique 7 [Some " ab "; None; Some "cd e"] 2 0
           [{| Chunk.page := 1; Chunk.chunk_id := "p1_c0"; Chunk.text := "ab" |};
            {| Chunk.page := 3; Chunk.chunk_id := "p3_c0"; Chunk.text := "cd" |};
            {| Chunk.page := 3; Chunk.chunk_id := "p3_c1"; Chunk.text := "e" |}]).
  reflexivity.
Defined.

(** ** The memory: updates, follow-ups and topics *)

(** X9. [update] writes the session it is called on, creating it when it
    does not exist: the question is appended to its history and becomes its
    last user question, a topic that is not empty becomes its last topic and
    an empty one leaves the last topic as it was; no other session of the
    map is touched. *)
Theorem update_effect (m : ConversationMemory)
    (session_id user_question topic : string) :
  sessions (update m session_id user_question topic) !! session_id
  = Some {| last_topic := if Py.truthy topic then topic
                          else last_topic (session_of m session_id);
            last_user_question := user_question;
            history := history (session_of m session_id) ++ [user_question] |}
  ∧ ∀ sid, sid ≠ session_id →
      sessions (update m session_id user_question topic) !! sid
      = sessions m !! sid.
Proof.
  unfold update, _get, session_of.
  destruct (sessions m !! session_id) as [s|] eqn:Hs; simpl; split.
  - rewrite lookup_insert_eq. by destruct (Py.truthy topic).
  - intros sid Hne. by rewrite lookup_insert_ne.
  - rewrite lookup_insert_eq. by destruct (Py.truthy topic).
  - intros sid Hne. by rewrite !lookup_insert_ne.
Qed.

(** The value of [contextualize], from the state of the session. *)
Lemma contextualize_value m session_id user_question :
  (contextualize m session_id user_question).2
  = let s := session_of m session_id in
    let q := Py.strip user_question in
    let tokens := Py.split (Py.lower q) in
    if (Z.of_nat (length tokens) <=? 5)
       || existsb (λ t, bool_decide (t ∈ pronouns)) tokens
    then if Py.truthy (last_topic s)
         then q +:+ " (context: " +:+ last_topic s +:+ ")"
         else q
    else q.
Proof.
  pose proof (_get_session m session_id) as Hget.
  unfold contextualize. destruct (_get m session_id) as [m' s'].
  simpl in Hget. by subst s'.
Qed.





(** X11. [contextualize] is pure as far as a caller can see: a call changes
    the value of no later call, for any session, and the memory it leaves
    is left as it is by the same call made again. *)
Theorem contextualize_observably_pure (m : ConversationMemory)
    (sid0 q0 sid q : string) :
  (contextualize (contextualize m sid0 q0).1 sid q).2
  = (contextualize m sid q).2 ∧
  (contextualize (contextualize m sid0 q0).1 sid0 q0).1
  = (contextualize m sid0 q0).1.
Proof.
  split.
  - by rewrite !contextualize_value, contextualize_session_of.
  - rewrite !contextualize_memory. unfold _get.
    destruct (sessions m !! sid0) as [s|] eqn:Hs; simpl.
    + by rewrite Hs.
    + by rewrite lookup_insert_eq.
Qed.

(** X12. Whenever a keyword of the list occurs in the lowered question, as
    a substring, [infer_topic] returns the one that comes first in the list
    among those that occur. *)
Theorem infer_topic_earliest_keyword (user_question : string) (i : nat)
    (k : string) :
  kws !! i = Some k →
  Py.contains k (Py.lower user_question) = true →
  (∀ (j : nat) k', (j < i)%nat → kws !! j = Some k' →
     Py.contains k' (Py.lower user_question) = false) →
  infer_topic user_question = k.
Proof.
  intros Hi Hk Hbefore. unfold infer_topic.
  by rewrite (first_keyword_first kws _ i k Hi Hk Hbefore).
Qed.

Lemma infer_topic_earliest_keyword_witness :
  infer_topic "Explain the SYNTAX of the grant policy" = "tax".
Proof.
  apply (infer_topic_earliest_keyword
           "Explain the SYNTAX of the grant policy" 3 "tax").
  - reflexivity.
  - reflexivity.
  - intros j k' Hj Hk'.
    destruct j as [|[|[|j]]]; [injection Hk' as <-; reflexivity..|lia].
Defined.

Lemma filter_none {A} (P : A → Prop) `{∀ x, Decision (P x)} (l : list A) :
  Forall (λ x, ¬ P x) l → filter P l = [].
Proof.
  induction 1 as [|x l Hx Hl IH]; [done|].
  by rewrite filter_cons, decide_False.
Qed.

(** X13. A question without keyword and without a word of more than three
    characters has the empty topic, and recording it leaves the last topic
    of the session in place. *)
Theorem short_question_keeps_topic (m : ConversationMemory)
    (session_id user_question : string) :
  first_keyword kws (Py.lower user_question) = None →
  Forall (λ w, Py.len w ≤ 3) (Py.split (Py.lower user_question)) →
  infer_topic user_question = "" ∧
  last_topic
    (session_of
       (update m session_id user_question (infer_topic user_question))
       session_id)
  = last_topic (session_of m session_id).
Proof.
  intros Hnone Hshort.
  assert (Htopic : infer_topic user_question = "").
  { unfold infer_topic. rewrite Hnone, filter_none; [done|].
    eapply Forall_impl; [exact Hshort|]. simpl. lia. }
  split; [done|].
  rewrite update_session_of, decide_True by done. by rewrite Htopic.
Qed.

Lemma short_question_keeps_topic_witness :
  last_topic
    (session_of
       (update (update ConversationMemory_init "s" "The tax base" "tax")
          "s" "Why so?" (infer_topic "Why so?"))
       "s")
  = "tax".
Proof.
  apply (short_question_keeps_topic
           (update ConversationMemory_init "s" "The tax base" "tax")
           "s" "Why so?").
  - reflexivity.
  - change (Forall (λ w, Py.len w ≤ 3) ["why"; "so?"]).
    apply Forall_cons. split; [by vm_compute|].
    apply Forall_cons. split; [by vm_compute|]. apply Forall_nil_2.
Defined.

(** ** The retriever: order of the results and the index error *)

Lemma index_spec {A} (l : list A) (i : Z) :
  (- Z.of_nat (length l) ≤ i < Z.of_nat (length l) →
   ∃ x, Py.index l i = Returned x) ∧
  (¬ (- Z.of_nat (length l) ≤ i < Z.of_nat (length l)) →
   Py.index l i = Raised IndexError).
Proof.
  unfold Py.index. split.
  - intros Hi.
    destruct (Z.ltb_spec i 0).
    + destruct (Z.leb_spec 0 (i + Z.of_nat (length l))); [|lia].
      destruct (Z.ltb_spec (i + Z.of_nat (length l)) (Z.of_nat (length l)));
        [|lia].
      simpl.
      destruct (lookup_lt_is_Some_2 l (Z.to_nat (i + Z.of_nat (length l))))
        as [x ->]; [lia|]. eauto.
    + destruct (Z.leb_spec 0 i); [|lia].
      destruct (Z.ltb_spec i (Z.of_nat (length l))); [|lia]. simpl.
      destruct (lookup_lt_is_Some_2 l (Z.to_nat i)) as [x ->]; [lia|]. eauto.
  - intros Hi.
    destruct (Z.ltb_spec i 0).
    + destruct (Z.leb_spec 0 (i + Z.of_nat (length l))); [|done].
      destruct (Z.ltb_spec (i + Z.of_nat (length l)) (Z.of_nat (length l)));
        [lia|done].
    + destruct (Z.leb_spec 0 i); [|lia].
      destruct (Z.ltb_spec i (Z.of_nat (length l))); [lia|done].
Qed.

Section RetrievalMore.
Context `{External}.

Lemma search_loop_cons corpus i sc slots acc :
  search_loop corpus ((i, sc) :: slots) acc
  = if i =? -1 then search_loop corpus slots acc
    else item ← Py.index corpus i;
         search_loop corpus slots (acc ++ [result_of sc item]).
Proof. reflexivity. Qed.

Lemma search_loop_in_order corpus slots acc results :
  search_loop corpus slots acc = Returned results →
  ∃ new,
    results = acc ++ new ∧
    Forall2 (λ res slot, ∃ item,
               Py.index corpus slot.1 = Returned item ∧
               res = result_of slot.2 item)
      new (filter (λ slot, slot.1 ≠ -1) slots).
Proof.
  revert acc. induction slots as [|[i sc] slots IH]; intros acc.
  - intros [= <-]. exists []. split; [by rewrite app_nil_r|constructor].
  - rewrite search_loop_cons, filter_cons. simpl fst.
    destruct (Z.eqb_spec i (-1)) as [->|Hi].
    + rewrite decide_False by (intros Hne; by apply Hne). apply IH.
    + rewrite decide_True by done.
      destruct (Py.index corpus i) as [item| |] eqn:Hitem; [|done..].
      simpl. intros Hrun. destruct (IH _ Hrun) as (new & -> & Hnew).
      exists (result_of sc item :: new).
      split; [by rewrite <- app_assoc|].
      constructor; [|done]. by exists item.
Qed.

(** X14. The results of [search] follow the rows of the index: there is one
    result for every slot that does not hold the not-found marker, in the
    order of the slots, made of the score of the slot and of the chunk that
    the store holds at the position of the slot. *)
Theorem search_results_in_order (r : Retriever) (query : string)
    (top_k : option Z) (results : list (SearchResult.t Score)) :
  search r query top_k = Returned results →
  let rows := index_rows r query (or_int top_k (TOP_K settings)) in
  Forall2 (λ res slot, ∃ item,
             Py.index (corpus (store r)) slot.1 = Returned item ∧
             res = result_of slot.2 item)
    results (filter (λ slot, slot.1 ≠ -1) (zip rows.2 rows.1)).
Proof.
  unfold search, index_rows.
  destruct (index_search _ _ _) as [scores idxs]. simpl.
  intros Hrun. by destruct (search_loop_in_order _ _ _ _ Hrun) as (new & -> & ?).
Qed.

Lemma search_loop_outcome corpus slots acc :
  (Exists (λ slot, slot.1 ≠ -1 ∧
             ¬ (- Z.of_nat (length corpus) ≤ slot.1
                < Z.of_nat (length corpus))) slots →
   search_loop corpus slots acc = Raised IndexError) ∧
  (Forall (λ slot, slot.1 = -1 ∨
             - Z.of_nat (length corpus) ≤ slot.1
             < Z.of_nat (length corpus)) slots →
   ∃ results, search_loop corpus slots acc = Returned results).
Proof.
  revert acc. induction slots as [|[i sc] slots IH]; intros acc.
  { split; [by intros ?%Exists_nil|by eexists]. }
  rewrite search_loop_cons. destruct (Z.eqb_spec i (-1)) as [->|Hi].
  - destruct (IH acc) as [Hbad Hgood]. split.
    + intros [[Hne _]|Hrest]%Exists_cons; [done|by apply Hbad].
    + intros [_ Hrest]%Forall_cons. by apply Hgood.
  - destruct (index_spec corpus i) as [Hin Hout]. split.
    + intros [[_ Hrange]|Hrest]%Exists_cons.
      * simpl in Hrange. by rewrite Hout.
      * destruct (decide (- Z.of_nat (length corpus) ≤ i
                          < Z.of_nat (length corpus))) as [Hrange|Hrange].
        -- destruct (Hin Hrange) as [item ->]. simpl. by apply IH.
        -- by rewrite Hout.
    + intros [[?|Hrange] Hrest]%Forall_cons; [done|].
      simpl in Hrange. destruct (Hin Hrange) as [item ->]. simpl.
      by apply IH.
Qed.

(** X15. For a request of at least one neighbour, which is what the index
    accepts, and on the rows that the index returns for it: [search] raises
    [IndexError] exactly when a slot of the rows holds a position that is
    not the not-found marker and that the store cannot resolve, a position
    [i] outside [-len(corpus) ≤ i < len(corpus)]; and it returns its list
    of results exactly when the rows hold no such slot. *)
Theorem search_index_error (r : Retriever) (query : string)
    (top_k : option Z) :
  1 ≤ or_int top_k (TOP_K settings) →
  let rows := index_rows r query (or_int top_k (TOP_K settings)) in
  let size := Z.of_nat (length (corpus (store r))) in
  let stale slot := slot.1 ≠ -1 ∧ ¬ (- size ≤ slot.1 < size) in
  (Exists stale (zip rows.2 rows.1) ↔
   search r query top_k = Raised IndexError) ∧
  (¬ Exists stale (zip rows.2 rows.1) ↔
   ∃ results, search r query top_k = Returned results).
Proof.
  intros _ rows size stale. subst rows. unfold search, index_rows.
  destruct (index_search _ _ _) as [scores idxs]. simpl.
  destruct (search_loop_outcome (corpus (store r)) (zip idxs scores) [])
    as [Hbad Hgood].
  destruct (decide (Exists stale (zip idxs scores))) as [Hex|Hex].
  - specialize (Hbad Hex). split; split; try done.
    intros [results Hrun]. by rewrite Hbad in Hrun.
  - assert (∃ results, search_loop (corpus (store r)) (zip idxs scores) []
                       = Returned results) as [results Hrun].
    { apply Hgood. apply Forall_forall. intros slot Hslot.
      destruct (decide (slot.1 = -1)) as [|Hne]; [by left|right].
      destruct (decide (- size ≤ slot.1 < size)) as [|Hout]; [done|].
      destruct Hex. apply Exists_exists. by exists slot. }
    split; split; try done.
    + intros Hraised. by rewrite Hrun in Hraised.
    + intros _. by exists results.
Qed.

End RetrievalMore.

Lemma search_index_error_witness :
  search (H := stub_external) stub_stale_retriever "debt" (Some 3)
  = Raised IndexError.
Proof.
  apply (search_index_error (H := stub_external) stub_stale_retriever
           "debt" (Some 3)); [simpl; lia|].
  apply Exists_cons_tl, Exists_cons_tl, Exists_cons_hd.
  split; simpl; lia.
Defined.

Lemma search_results_in_order_witness :
  Forall2 (λ res slot, ∃ item,
             Py.index (corpus (store stub_retriever)) slot.1 = Returned item ∧
             res = result_of (H := stub_external) slot.2 item)
    [result_of (H := stub_external) 0
       {| Chunk.page := 1; Chunk.chunk_id := "p1_c0";
          Chunk.text := "The budget deficit narrowed." |};
     result_of (H := stub_external) 0
       {| Chunk.page := 2; Chunk.chunk_id := "p2_c0";
          Chunk.text := "Public debt is stable." |}]
    [(0, 0); (1, 0)].
Proof.
  apply (search_results_in_order (H := stub_external) stub_retriever
           "debt" (Some 3)).
  reflexivity.
Defined.

(** ** The query entry points: failures, answers and front ends *)

Lemma len_app a b : Py.len (a +:+ b) = Py.len a + Py.len b.
Proof.
  unfold Py.len. induction a as [|c a IH]; [done|].
  change (String c a +:+ b) with (String c (a +:+ b)). simpl String.length.
  lia.
Qed.

Lemma has_char_app c a b :
  has_char c (a +:+ b) = has_char c a || has_char c b.
Proof.
  induction a as [|c' a IH]; [done|].
  change (String c' a +:+ b) with (String c' (a +:+ b)). simpl.
  by rewrite IH, orb_assoc.
Qed.

Lemma has_char_take c n s :
  has_char c s = false → has_char c (Py.take n s) = false.
Proof.
  revert s. induction n as [|n IH]; intros [|c' s]; simpl; try done.
  intros [-> Hs]%orb_false_iff. by apply IH.
Qed.

Lemma has_char_drop c n s :
  has_char c s = false → has_char c (Py.drop n s) = false.
Proof.
  revert s. induction n as [|n IH]; intros [|c' s]; simpl; try done.
  intros [_ Hs]%orb_false_iff. by apply IH.
Qed.

Lemma has_char_replace_char old new s :
  new ≠ old → has_char old (Py.replace_char old new s) = false.
Proof.
  intros Hne. induction s as [|c s IH]; simpl; [done|].
  rewrite IH, orb_false_r.
  destruct (Ascii.eqb_spec c old) as [->|Hc].
  - by apply Ascii.eqb_neq.
  - by apply Ascii.eqb_neq.
Qed.

Section Answers.
Context `{External}.

Lemma extractive_lines_fmap limit ellipsis results lines :
  extractive_lines limit ellipsis results lines
  = lines ++ (result_line limit ellipsis <$> results).
Proof.
  revert lines. induction results as [|r results IH]; intros lines; simpl.
  - by rewrite app_nil_r.
  - rewrite IH, <- app_assoc. done.
Qed.

(** X16. The extractive answer for results that are not empty is made of
    three header lines and of one line for every result, in the order of
    the results, joined by newlines. The snippet of a line has at most 300
    characters followed by the ellipsis, and holds no newline of the chunk
    text. *)
Theorem extractive_answer_lines (question : string)
    (results : list (SearchResult.t Score)) :
  results ≠ [] →
  generate ExtractiveAnswerGenerator question results
  = Returned
      (Py.join nl (["Q: " +:+ question; ""; "Top matches:"]
                   ++ (result_line 300 ellipsis_app <$> results))) ∧
  ∀ r,
    Py.len (snippet_of 300 ellipsis_app r) ≤ 300 + Py.len ellipsis_app ∧
    (has_char "010" ellipsis_app = false →
     has_char "010" (snippet_of 300 ellipsis_app r) = false).
Proof.
  intros Hne. split.
  - destruct results as [|r results]; [done|].
    unfold generate. by rewrite extractive_lines_fmap.
  - intros r. unfold snippet_of.
    set (snippet := Py.replace_char "010" " " (Py.strip (SearchResult.text r))).
    assert (Hclean : has_char "010" snippet = false)
      by (by apply has_char_replace_char).
    pose proof (len_nonneg ellipsis_app).
    destruct (Z.ltb_spec 300 (Py.len snippet)).
    + split.
      * rewrite len_app, len_slice by lia. lia.
      * intros Hell. rewrite has_char_app, Hell, orb_false_r.
        unfold Py.slice. by apply has_char_take, has_char_drop.
    + split; [lia|done].
Qed.

(** X17. What a failure of [ask] leaves behind. A call that raises does so
    for one of three reasons: no document was ingested, and the state is
    left as it was; the search raised, and no session has changed; or the
    LLM generator raised, after the question was recorded in the memory as
    for an answered query. *)
Theorem ask_failure (app : App) (req : AskReq) (e : exn) :
  (ask app req).2 = Raised e →
  (retriever app = None ∧ (ask app req).1 = app ∧
   e = HTTPException 400
         "Index not found. Please upload or ingest a PDF first.") ∨
  (∃ r, retriever app = Some r ∧
     search r (contextualize (memory app) (session_id req) (question req)).2
       (Some (or_int (top_k req) (TOP_K settings))) = Raised e ∧
     ∀ sid, session_of (memory (ask app req).1) sid
            = session_of (memory app) sid) ∨
  (∃ r found, retriever app = Some r ∧
     search r (contextualize (memory app) (session_id req) (question req)).2
       (Some (or_int (top_k req) (TOP_K settings))) = Returned found ∧
     use_llm req = true ∧ call_llm (question req) found = Raised e ∧
     session_of (memory (ask app req).1) (session_id req)
     = record_question (session_of (memory app) (session_id req))
         (question req)).
Proof.
  unfold ask. destruct (retriever app) as [r|] eqn:Hr.
  - pose proof (contextualize_session_of (memory app) (session_id req)
                  (question req)) as Hctx.
    destruct (contextualize _ _ _) as [m q_ctx]. simpl in Hctx. simpl snd.
    destruct (search r q_ctx _) as [found|e'|] eqn:Hsearch; simpl.
    + destruct (use_llm req) eqn:Hllm.
      * simpl. destruct (call_llm (question req) found) as [a|e'|] eqn:Hcall;
          simpl; [done| |done].
        intros [= ->]. right. right. exists r, found. split_and!; try done.
        rewrite update_session_of, decide_True by done. by rewrite Hctx.
      * destruct found; done.
    + intros [= ->]. right. left. exists r. split_and!; done.
    + done.
  - simpl. intros [= <-]. by left.
Qed.

(** X18. Once a document is ingested, a submission of the HTML form is the
    query of the API in the one session ["ui"], for the number of results
    of the settings, with the LLM generator when the form field is set to a
    string that is not empty. *)
Theorem ask_ui_as_ask (app : App) (question : string)
    (use_llm : option string) :
  is_Some (retriever app) →
  ask_ui app question use_llm
  = ask app {| session_id := "ui"; question := question; top_k := None;
               use_llm := Py.truthy (or_empty use_llm) |}.
Proof.
  intros [r Hr]. unfold ask_ui, ask. rewrite Hr. simpl.
  destruct (contextualize (memory app) "ui" question) as [m q_ctx].
  done.
Qed.

End Answers.

Lemma extractive_answer_lines_witness :
  Py.len (snippet_of (H := stub_external) 300 "..."
            (result_of (H := stub_external) 0
               {| Chunk.page := 1; Chunk.chunk_id := "p1_c0";
                  Chunk.text := "The budget deficit narrowed." |}))
  ≤ 303.
Proof.
  apply (extractive_answer_lines (H := stub_external) "What is the budget?"
           [result_of (H := stub_external) 0
              {| Chunk.page := 1; Chunk.chunk_id := "p1_c0";
                 Chunk.text := "The budget deficit narrowed." |}]).
  done.
Defined.

Lemma ask_failure_witness :
  history
    (session_of
       (memory (ask stub_app
                  {| session_id := "s"; question := "What is the budget?";
                     top_k := None; use_llm := true |}).1) "s")
  = ["What is the budget?"].
Proof.
  destruct (ask_failure (H := stub_external) stub_app
              {| session_id := "s"; question := "What is the budget?";
                 top_k := None; use_llm := true |}
              (RuntimeError "Set HYPERBOLIC_API_KEY in your .env file.")
              eq_refl)
    as [(Hnone & _)|[(r & _ & Hsearch & _)|(r & found & _ & _ & _ & _ & Hs)]].
  - discriminate Hnone.
  - reflexivity.
  - exact (eq_trans (f_equal history Hs) eq_refl).
Defined.

Lemma ask_ui_as_ask_witness :
  ask_ui (H := stub_external) stub_app "What is the budget?" None
  = ask stub_app {| session_id := "ui"; question := "What is the budget?";
                    top_k := None; use_llm := false |}.
Proof.
  apply (ask_ui_as_ask (H := stub_external) stub_app "What is the budget?" None).
  by eexists.
Defined.

(** ** The command line loop *)

Section ChatLoop.
Context `{External}.

Lemma chat_loop_from_cons bot sid llm line rest printed :
  chat_loop_from bot sid llm (line :: rest) printed
  = if bool_decide (is_exit line)
    then (bot, printed, Ended (Returned ()))
    else match Chatbot_answer bot sid (Py.strip line) 3 llm with
         | (bot', Returned a) =>
             chat_loop_from bot' sid llm rest (printed ++ [a])
         | (bot', Raised e) => (bot', printed, Ended (Raised e))
         | (bot', OutOfFuel) => (bot', printed, Ended OutOfFuel)
         end.
Proof. reflexivity. Qed.

Lemma chat_loop_from_exit bot sid llm pre cmd post printed :
  is_exit cmd →
  chat_loop_from bot sid llm (pre ++ cmd :: post) printed
  = chat_loop_from bot sid llm (pre ++ [cmd]) printed.
Proof.
  intros Hcmd. revert bot printed.
  induction pre as [|line pre IH]; intros bot printed.
  - simpl app. rewrite !chat_loop_from_cons. by rewrite bool_decide_eq_true_2.
  - rewrite <- !app_comm_cons, !chat_loop_from_cons.
    destruct (bool_decide (is_exit line)); [done|].
    destruct (Chatbot_answer bot sid (Py.strip line) 3 llm) as [bot' [a|e|]];
      [apply IH|done..].
Qed.

Lemma chat_loop_from_run bot sid llm pre cmd printed :
  Forall (λ line, ¬ is_exit line) pre → is_exit cmd →
  (chat_loop_from bot sid llm (pre ++ [cmd]) printed).2 ≠ EndOfInput ∧
  ((chat_loop_from bot sid llm (pre ++ [cmd]) printed).2
   = Ended (Returned ()) →
   length (chat_loop_from bot sid llm (pre ++ [cmd]) printed).1.2
   = (length printed + length pre)%nat ∧
   history (session_of
              (Chatbot_memory
                 (chat_loop_from bot sid llm (pre ++ [cmd]) printed).1.1) sid)
   = history (session_of (Chatbot_memory bot) sid) ++ (Py.strip <$> pre)).
Proof.
  intros Hpre Hcmd. revert bot printed.
  induction Hpre as [|line pre Hline Hpre IH]; intros bot printed.
  - simpl app. rewrite chat_loop_from_cons, bool_decide_eq_true_2 by done.
    simpl. split; [done|]. intros _. split; [lia|by rewrite app_nil_r].
  - rewrite <- app_comm_cons, chat_loop_from_cons.
    rewrite bool_decide_eq_false_2 by done.
    pose proof (Chatbot_answer_session bot sid (Py.strip line) 3 llm) as Hstep.
    destruct (Chatbot_answer bot sid (Py.strip line) 3 llm) as [bot' [a|e|]];
      simpl in Hstep; [|done..].
    destruct (IH bot' (printed ++ [a])) as [Hend Hrun].
    split; [done|]. intros Hexit. destruct (Hrun Hexit) as [Hlen Hhist].
    split.
    + rewrite Hlen, length_app. simpl. lia.
    + rewrite Hhist, (Hstep a eq_refl). simpl. by rewrite <- app_assoc.
Qed.

(** X19. [chat_loop] stops at the first exit command, whatever its case and
    the whitespace around it, and never reads a line after it. When the run
    ends at the command, every line typed before it was answered once, and
    the history of the session is made of these lines, trimmed. *)
Theorem chat_loop_until_exit (r : Retriever) (session_id : string)
    (use_llm : bool) (pre : list string) (cmd : string) (post : list string) :
  Forall (λ line, ¬ is_exit line) pre → is_exit cmd →
  let run := chat_loop r session_id use_llm (pre ++ cmd :: post) in
  run = chat_loop r session_id use_llm (pre ++ [cmd]) ∧
  run.2 ≠ EndOfInput ∧
  (run.2 = Ended (Returned ()) →
   length run.1.2 = length pre ∧
   history (session_of (Chatbot_memory run.1.1) session_id)
   = Py.strip <$> pre).
Proof.
  intros Hpre Hcmd run. subst run. unfold chat_loop.
  rewrite chat_loop_from_exit by done.
  destruct (chat_loop_from_run
              {| Chatbot_retriever := r;
                 Chatbot_memory := ConversationMemory_init |}
              session_id use_llm pre cmd [] Hpre Hcmd) as [Hend Hrun].
  split_and!; [done..|].
  intros Hexit. destruct (Hrun Hexit) as [Hlen Hhist]. done.
Qed.

End ChatLoop.

Lemma chat_loop_until_exit_witness :
  chat_loop (H := stub_external) stub_retriever "s" false
    ["  What is the budget? "; " EXIT "; "What about the debt?"]
  = chat_loop (H := stub_external) stub_retriever "s" false
      ["  What is the budget? "; " EXIT "].
Proof.
  apply (chat_loop_until_exit (H := stub_external) stub_retriever "s" false
           ["  What is the budget? "] " EXIT " ["What about the debt?"]).
  - apply Forall_cons. split; [|apply Forall_nil_2].
    apply (bool_decide_unpack _). by vm_compute.
  - apply (bool_decide_unpack _). by vm_compute.
Defined.

(** ** Sessions do not see each other *)

Section Isolation.
Context `{External}.







End Isolation.

